(** * Boolean search: query parser and tree evaluator

    A shallow embedding of [hw_boolean_search.py]: the tokenizer and the
    shunting-yard parser of [parse_query], the class [BooleanNode], the
    dictionary interface of [Index], and [QueryTree.evaluate_tree]; then the
    construction of the index from the corpus, [SearchResults.add] and
    [SearchResults.print_submission].

    Modelling conventions.
    - A Python [str] is a [string]; its characters are the code points
      0..255, and [isalnum_char] is Python's [str.isalnum] on that range.
    - A Python list used as a stack ([append] / [pop] at the end) is a Rocq
      list whose head is the top of the stack; Python's [stack[0]] is
      therefore the last element of the Rocq list.
    - A raised exception is the [Raise] case of [result]; only the class of
      the exception is kept.
    - A variable holding either [None] or a [BooleanNode] object is a value
      of the type [node].
    - The inverted index is the dictionary [Index.inverted_index], a finite
      map from terms to sets of document ids; document ids are the strings
      of the first column of the corpus file.
    - A file that is read is the list of the lines that iterating over it
      yields, line ends included; a file that is written is the list of the
      strings written to it.  Query ids are integers that are not negative. *)

From Stdlib Require Import Ascii String NArith.
From stdpp Require Import base option list strings gmap.
From stdpp Require Import pretty.

Local Open Scope string_scope.
Local Open Scope list_scope.

(** ** Exceptions *)

Inductive exn : Set :=
| IndexError   (* pop from an empty list, index out of range *)
| KeyError     (* missing dictionary key *)
| TypeError.   (* a set operator applied to None *)

Inductive result (A : Type) : Type :=
| Ok (a : A)
| Raise (e : exn).

Arguments Ok {A} a.
Arguments Raise {A} e.

#[global] Instance result_bind : MBind result :=
  fun A B (k : A -> result B) (m : result A) =>
    match m with
    | Ok a => k a
    | Raise e => Raise e
    end.

(** ** Strings *)

(** [char in s] for a one-character string [char]. *)
Fixpoint char_in (c : ascii) (s : string) : bool :=
  match s with
  | EmptyString => false
  | String d s' => Ascii.eqb c d || char_in c s'
  end.

(** Python's [str.isalnum] on one character with code point below 256. *)
Definition isalnum_char (c : ascii) : bool :=
  let n := N_of_ascii c in
  ((48 <=? n) && (n <=? 57) || (65 <=? n) && (n <=? 90) ||
   (97 <=? n) && (n <=? 122) ||
   (n =? 170) || (n =? 178) || (n =? 179) || (n =? 181) || (n =? 185) ||
   (n =? 186) || (188 <=? n) && (n <=? 190) ||
   (192 <=? n) && (n <=? 214) || (216 <=? n) && (n <=? 246) ||
   (248 <=? n) && (n <=? 255))%N.

Fixpoint all_chars (p : ascii -> bool) (s : string) : bool :=
  match s with
  | EmptyString => true
  | String c s' => p c && all_chars p s'
  end.

(** [s.isalnum()]: every character is alphanumeric and there is at least
    one character. *)
Definition isalnum (s : string) : bool :=
  match s with
  | EmptyString => false
  | String _ _ => all_chars isalnum_char s
  end.

(** Truth value of a string: [if token:]. *)
Definition truthy (s : string) : bool :=
  match s with
  | EmptyString => false
  | String _ _ => true
  end.

(** ** Tokenizer *)

(** [char in '() |!'] *)
Definition is_separator (c : ascii) : bool := char_in c "() |!".

(** The body of [for char in query] on the local state [(tokens, token)]. *)
Fixpoint tokenize_loop (query : string) (tokens : list string) (token : string)
  : list string * string :=
  match query with
  | EmptyString => (tokens, token)
  | String char query' =>
      if is_separator char then
        let tokens := if truthy token then tokens ++ [token] else tokens in
        tokenize_loop query' (tokens ++ [String char ""]) ""
      else
        tokenize_loop query' tokens (token +:+ String char "")
  end.

Definition tokenize (query : string) : list string :=
  let '(tokens, token) := tokenize_loop query [] "" in
  if truthy token then tokens ++ [token] else tokens.

(** ** Expression tree *)

Inductive node : Type :=
| NoneNode
| BooleanNode (value : string) (left right : node).

(** [BooleanNode(token)] with both children defaulted to [None]. *)
Definition leaf (token : string) : node := BooleanNode token NoneNode NoneNode.

(** ** Parser *)

(** The test [token.isalnum() or "_" in token], used by the parser on tokens
    and by the evaluator on node values. *)
Definition is_operand (token : string) : bool :=
  isalnum token || char_in "_" token.

(** The dictionary [precedence]. *)
Definition precedence : gmap string nat :=
  <["!" := 3]> (<[" " := 2]> (<["|" := 1]> ∅)).

(** [precedence[k]] *)
Definition precedence_of (k : string) : result nat :=
  match precedence !! k with
  | Some p => Ok p
  | None => Raise KeyError
  end.

(** What [apply_operator] does to the operand stack once [operator] has been
    popped from [operators]. *)
Definition apply_to_stack (operator : string) (stack : list node)
  : result (list node) :=
  if String.eqb operator "!" then
    match stack with
    | operand :: stack' => Ok (BooleanNode operator operand NoneNode :: stack')
    | [] => Raise IndexError
    end
  else
    match stack with
    | rgt :: lft :: stack' => Ok (BooleanNode operator lft rgt :: stack')
    | _ => Raise IndexError
    end.

(** The closure [apply_operator] on the two stacks. *)
Definition apply_operator (st : list node * list string)
  : result (list node * list string) :=
  let '(stack, operators) := st in
  match operators with
  | [] => Raise IndexError
  | operator :: operators' =>
      stack' ← apply_to_stack operator stack;
      Ok (stack', operators')
  end.

(** [while operators and operators[-1] != '(': apply_operator()] *)
Fixpoint close_loop (operators : list string) (stack : list node)
  : result (list node * list string) :=
  match operators with
  | [] => Ok (stack, [])
  | top :: operators' =>
      if String.eqb top "(" then Ok (stack, operators)
      else
        stack' ← apply_to_stack top stack;
        close_loop operators' stack'
  end.

(** [while (operators and operators[-1] != '(' and
           precedence[operators[-1]] >= precedence[token]): apply_operator()] *)
Fixpoint reduce_loop (token : string) (operators : list string)
  (stack : list node) : result (list node * list string) :=
  match operators with
  | [] => Ok (stack, [])
  | top :: operators' =>
      if String.eqb top "(" then Ok (stack, operators)
      else
        ptop ← precedence_of top;
        ptoken ← precedence_of token;
        if (ptoken <=? ptop)%nat then
          stack' ← apply_to_stack top stack;
          reduce_loop token operators' stack'
        else Ok (stack, operators)
  end.

(** [while operators: apply_operator()] *)
Fixpoint drain_loop (operators : list string) (stack : list node)
  : result (list node) :=
  match operators with
  | [] => Ok stack
  | top :: operators' =>
      stack' ← apply_to_stack top stack;
      drain_loop operators' stack'
  end.

(** The body of [for token in tokens]. *)
Definition parse_token (token : string) (st : list node * list string)
  : result (list node * list string) :=
  let '(stack, operators) := st in
  if is_operand token then Ok (leaf token :: stack, operators)
  else if String.eqb token "(" then Ok (stack, token :: operators)
  else if String.eqb token ")" then
    '(stack', operators') ← close_loop operators stack;
    match operators' with
    | _ :: operators'' => Ok (stack', operators'')
    | [] => Raise IndexError
    end
  else
    '(stack', operators') ← reduce_loop token operators stack;
    Ok (stack', token :: operators').

Fixpoint parse_tokens (tokens : list string) (st : list node * list string)
  : result (list node * list string) :=
  match tokens with
  | [] => Ok st
  | token :: tokens' =>
      st' ← parse_token token st;
      parse_tokens tokens' st'
  end.

(** [stack[0]]: the bottom of the operand stack. *)
Definition stack_bottom (stack : list node) : result node :=
  match last stack with
  | Some root => Ok root
  | None => Raise IndexError
  end.

Definition parse (tokens : list string) : result node :=
  '(stack, operators) ← parse_tokens tokens ([], []);
  stack' ← drain_loop operators stack;
  stack_bottom stack'.

Definition parse_query (query : string) : result node :=
  parse (tokenize query).

(** ** Index and evaluator *)

Abbreviation DocId := string (only parsing).
Abbreviation Index := (gmap string (gset string)) (only parsing).

(** [Index.get(key, default)] *)
Definition Index_get (index : Index) (key : string) (default : gset DocId)
  : gset DocId :=
  match index !! key with
  | Some postings => postings
  | None => default
  end.

(** [Index.values()] *)
Definition Index_values (index : Index) : list (gset DocId) :=
  (map_to_list index).*2.

(** [set(doc_id for term_docs in document_index.values()
            for doc_id in term_docs)] *)
Definition all_docs (index : Index) : gset DocId :=
  ⋃ (Index_values index).

(** What [evaluate_tree] can return: a set, or [None] when no branch of the
    function returns. *)
Inductive pyval : Type :=
| PySet (s : gset DocId)
| PyNone.

(** The set operators [-], [&] and [|]; an operand that is [None] raises
    [TypeError]. *)
Definition py_binop (f : gset DocId -> gset DocId -> gset DocId)
  (x y : pyval) : result pyval :=
  match x, y with
  | PySet s, PySet t => Ok (PySet (f s t))
  | _, _ => Raise TypeError
  end.

Fixpoint evaluate_tree (nd : node) (document_index : Index) : result pyval :=
  match nd with
  | NoneNode => Ok (PySet ∅)
  | BooleanNode value lft rgt =>
      if is_operand value then
        Ok (PySet (Index_get document_index value ∅))
      else if String.eqb value "!" then
        let docs := all_docs document_index in
        x ← evaluate_tree lft document_index;
        py_binop (fun s t => s ∖ t) (PySet docs) x
      else if String.eqb value " " then
        x ← evaluate_tree lft document_index;
        y ← evaluate_tree rgt document_index;
        py_binop (fun s t => s ∩ t) x y
      else if String.eqb value "|" then
        x ← evaluate_tree lft document_index;
        y ← evaluate_tree rgt document_index;
        py_binop (fun s t => s ∪ t) x y
      else Ok PyNone
  end.

(** [QueryTree]: the constructor parses, [search] evaluates. *)
Record QueryTree : Type := { qid : nat; tree : node }.

Definition QueryTree_init (q : nat) (query : string) : result QueryTree :=
  t ← parse_query query;
  Ok {| qid := q; tree := t |}.

Definition search (qt : QueryTree) (index : Index) : result (nat * pyval) :=
  v ← evaluate_tree (tree qt) index;
  Ok (qid qt, v).

(** [evaluate(parse(query), index)]: what [QueryTree(qid, query).search(index)]
    computes for the query text. *)
Definition evaluate (query : string) (index : Index) : result pyval :=
  t ← parse_query query;
  evaluate_tree t index.

(** ** Vocabulary of the statements *)

(** A term as it can occur in a query: a string the tokenizer keeps in one
    piece and the parser takes for an operand. *)
Definition is_term (s : string) : bool :=
  is_operand s && all_chars (fun c => negb (is_separator c)) s.

(** A token made of one separator character. *)
Definition is_separator_token (s : string) : bool :=
  match s with
  | String c EmptyString => is_separator c
  | _ => false
  end.

(** A non-empty string without separator characters. *)
Definition is_run (s : string) : bool :=
  truthy s && all_chars (fun c => negb (is_separator c)) s.

(** No two neighbouring tokens are both runs. *)
Fixpoint runs_separated (tokens : list string) : bool :=
  match tokens with
  | t1 :: ((t2 :: _) as rest) =>
      negb (is_run t1 && is_run t2) && runs_separated rest
  | _ => true
  end.

Fixpoint concat_tokens (tokens : list string) : string :=
  match tokens with
  | [] => ""
  | t :: rest => t +:+ concat_tokens rest
  end.

(** The tree has a Term leaf holding [s]. *)
Fixpoint has_leaf (s : string) (t : node) : bool :=
  match t with
  | NoneNode => false
  | BooleanNode v NoneNode NoneNode => String.eqb v s
  | BooleanNode _ l r => has_leaf s l || has_leaf s r
  end.

(** Every node the evaluator visits is a Term node, a NOT node, an AND node
    or an OR node; [None] children are allowed. *)
Fixpoint well_tagged (t : node) : bool :=
  match t with
  | NoneNode => true
  | BooleanNode v l r =>
      if is_operand v then true
      else if String.eqb v "!" then well_tagged l
      else if String.eqb v " " || String.eqb v "|" then
        well_tagged l && well_tagged r
      else false
  end.

(** Parentheses of the query text match. *)
Fixpoint parens_depth (s : string) (depth : nat) : option nat :=
  match s with
  | EmptyString => Some depth
  | String c s' =>
      if Ascii.eqb c "(" then parens_depth s' (S depth)
      else if Ascii.eqb c ")" then
        match depth with
        | O => None
        | S d => parens_depth s' d
        end
      else parens_depth s' depth
  end.

Definition parens_balanced (s : string) : bool :=
  match parens_depth s 0 with
  | Some O => true
  | _ => false
  end.

Definition pending (token : string) : list string :=
  if truthy token then [token] else [].

(** The tokens produced from [query] when [token] is the run read so far. *)
Definition tokens_from (query token : string) : list string :=
  let '(tokens, token') := tokenize_loop query [] token in
  tokens ++ pending token'.

(** Indexes of the examples. *)

(** An index on which the two groupings of [a b|c] differ. *)
Definition index_abc : Index :=
  <["a" := {["1"]}]> (<["b" := {["2"]}]> (<["c" := {["1"; "3"]}]> ∅)).

(** The index of the concrete scenario: cat, dog, fish. *)
Definition index_pets : Index :=
  <["cat" := {["1"; "3"]}]>
    (<["dog" := {["2"; "3"]}]> (<["fish" := {["4"]}]> ∅)).

(** The index [{"a": {1, 2}}]. *)
Definition index_a : Index := <["a" := {["1"; "2"]}]> ∅.

(** ** Boolean expressions and their query text *)

(** A boolean expression over terms. *)
Inductive expr : Type :=
| ETerm (a : string)
| ENot (e : expr)
| EAnd (e1 e2 : expr)
| EOr (e1 e2 : expr).

Fixpoint terms_ok (e : expr) : bool :=
  match e with
  | ETerm a => is_term a
  | ENot e1 => terms_ok e1
  | EAnd e1 e2 | EOr e1 e2 => terms_ok e1 && terms_ok e2
  end.

(** The tree of an expression, with the tags and the child layout that
    [apply_operator] produces. *)
Fixpoint tree_of (e : expr) : node :=
  match e with
  | ETerm a => leaf a
  | ENot e1 => BooleanNode "!" (tree_of e1) NoneNode
  | EAnd e1 e2 => BooleanNode " " (tree_of e1) (tree_of e2)
  | EOr e1 e2 => BooleanNode "|" (tree_of e1) (tree_of e2)
  end.

(** The documents an expression selects. *)
Fixpoint denote (index : Index) (e : expr) : gset DocId :=
  match e with
  | ETerm a => Index_get index a ∅
  | ENot e1 => all_docs index ∖ denote index e1
  | EAnd e1 e2 => denote index e1 ∩ denote index e2
  | EOr e1 e2 => denote index e1 ∪ denote index e2
  end.

Definition paren (b : bool) (tokens : list string) : list string :=
  if b then "(" :: tokens ++ [")"] else tokens.

(** The tokens of an expression written with as few parentheses as the
    precedences 3, 2, 1 of [!], space and [|] allow, binary operators
    associating to the left; [level] is the lowest precedence that may stand
    without parentheses. *)
Fixpoint print_tokens (level : nat) (e : expr) : list string :=
  match e with
  | ETerm a => [a]
  | ENot e1 => paren (3 <? level)%nat ("!" :: print_tokens 4 e1)
  | EAnd e1 e2 =>
      paren (2 <? level)%nat (print_tokens 2 e1 ++ " " :: print_tokens 3 e2)
  | EOr e1 e2 =>
      paren (1 <? level)%nat (print_tokens 1 e1 ++ "|" :: print_tokens 2 e2)
  end.

(** The query text of an expression. *)
Definition print (e : expr) : string := concat_tokens (print_tokens 0 e).

(** An operator that the arrival of an operator of precedence [q] pops. *)
Definition pops_at (q : nat) (o : string) : Prop :=
  (o = "!" /\ q <= 3) \/ (o = " " /\ q <= 2) \/ (o = "|" /\ q <= 1).

(** An operator stack on which the arrival of an operator of precedence [q]
    pops nothing. *)
Definition holds_at (q : nat) (operators : list string) : Prop :=
  match operators with
  | [] => True
  | top :: _ =>
      top = "(" \/ (top = "!" /\ 3 < q) \/ (top = " " /\ 2 < q) \/
      (top = "|" /\ 1 < q)
  end.

Definition is_none (t : node) : bool :=
  match t with
  | NoneNode => true
  | BooleanNode _ _ _ => false
  end.

(** Every node has the children its value calls for: none under an operand,
    a left child only under [!], two children under anything else. *)
Fixpoint shaped (t : node) : bool :=
  match t with
  | NoneNode => false
  | BooleanNode v l r =>
      if is_operand v then is_none l && is_none r
      else if String.eqb v "!" then shaped l && is_none r
      else shaped l && shaped r
  end.

Fixpoint node_values (t : node) : list string :=
  match t with
  | NoneNode => []
  | BooleanNode v l r => v :: node_values l ++ node_values r
  end.

(** The root is a node whose value no branch of [evaluate_tree] accepts. *)
Definition unknown_root (t : node) : bool :=
  match t with
  | NoneNode => false
  | BooleanNode v _ _ =>
      negb (is_operand v || String.eqb v "!" || String.eqb v " "
            || String.eqb v "|")
  end.

(** What the parser has done once the tokens of [e] are read: the tree of
    [e] is on the operand stack as soon as the operators still pending are
    applied, and each of them is popped by an operator of precedence [q]. *)
Definition reads (e : expr) (q : nat) (tokens : list string)
  (stack : list node) (operators : list string) : Prop :=
  exists (pending_ops : list string) (stack' : list node),
    parse_tokens tokens (stack, operators) =
      Ok (stack', pending_ops ++ operators) /\
    Forall (pops_at q) pending_ops /\
    drain_loop pending_ops stack' = Ok (tree_of e :: stack).

(** Number of opening parentheses on the operator stack. *)
Fixpoint open_count (operators : list string) : nat :=
  match operators with
  | [] => 0
  | top :: operators' =>
      (if String.eqb top "(" then 1 else 0) + open_count operators'
  end.

(** Nesting depth after a token list, [None] once a closing parenthesis has
    no opening one before it. *)
Fixpoint tokens_depth (tokens : list string) (depth : nat) : option nat :=
  match tokens with
  | [] => Some depth
  | token :: tokens' =>
      if String.eqb token "(" then tokens_depth tokens' (S depth)
      else if String.eqb token ")" then
        match depth with
        | O => None
        | S d => tokens_depth tokens' d
        end
      else tokens_depth tokens' depth
  end.

(** What every step of the parser keeps: the trees on the operand stack are
    shaped, the operator stack holds no operand, and every value on either
    stack is one of [tokens]. *)
Definition parser_invariant (tokens : list string)
  (st : list node * list string) : Prop :=
  Forall (fun t => shaped t = true) st.1 /\
  Forall (fun t => incl (node_values t) tokens) st.1 /\
  Forall (fun o => is_operand o = false /\ In o tokens) st.2.

(** ** Building the index *)

(** Python's [str.isspace] on one character with code point below 256. *)
Definition isspace_char (c : ascii) : bool :=
  let n := N_of_ascii c in
  ((9 <=? n) && (n <=? 13) || (28 <=? n) && (n <=? 32) ||
   (n =? 133) || (n =? 160))%N.

(** [s.split(sep)] for a separator [sep] of one character; [field] is the
    field read so far. *)
Fixpoint split_loop (sep : ascii) (s : string) (field : string) : list string :=
  match s with
  | EmptyString => [field]
  | String c s' =>
      if Ascii.eqb c sep then field :: split_loop sep s' ""
      else split_loop sep s' (field +:+ String c "")
  end.

Definition split_on (sep : ascii) (s : string) : list string :=
  split_loop sep s "".

(** [s.split()]: the maximal runs of characters that are not whitespace;
    [word] is the run read so far. *)
Fixpoint split_words_loop (s : string) (word : string) : list string :=
  match s with
  | EmptyString => pending word
  | String c s' =>
      if isspace_char c then pending word ++ split_words_loop s' ""
      else split_words_loop s' (word +:+ String c "")
  end.

Definition split_words (s : string) : list string := split_words_loop s "".

Definition tab : ascii := "009"%char.
Definition newline : string := String "010"%char "".

(** [fields[i]] *)
Definition list_item (fields : list string) (i : nat) : result string :=
  match fields !! i with
  | Some field => Ok field
  | None => Raise IndexError
  end.

(** [postings = self.inverted_index.setdefault(word, set())] followed by
    [postings.add(index)]. *)
Definition add_posting (doc : DocId) (inverted_index : Index) (word : string)
  : Index :=
  <[word := {[doc]} ∪ Index_get inverted_index word ∅]> inverted_index.

(** The document id and the words of one line of the corpus file: the text
    words first, then the header words. *)
Definition line_words (line : string) : result (DocId * list string) :=
  doc ← list_item (split_on tab line) 0;
  text ← list_item (split_on tab line) 2;
  header ← list_item (split_on tab line) 1;
  Ok (doc, split_words text ++ split_words header).

(** The body of [for line in f] in [Index.__init__]. *)
Definition index_line (inverted_index : Index) (line : string) : result Index :=
  '(doc, words) ← line_words line;
  Ok (foldl (add_posting doc) inverted_index words).

Fixpoint index_lines (lines : list string) (inverted_index : Index)
  : result Index :=
  match lines with
  | [] => Ok inverted_index
  | line :: lines' =>
      inverted_index' ← index_line inverted_index line;
      index_lines lines' inverted_index'
  end.

(** [Index(index_file)], on the lines that iterating over the file yields. *)
Definition Index_init (lines : list string) : result Index :=
  index_lines lines ∅.

(** A line of the corpus file: id, header and text, separated by tabs. *)
Definition corpus_line (doc header text : string) : string :=
  doc +:+ String tab (header +:+ String tab (text +:+ newline)).

(** A corpus from which the index of the concrete scenario is built. *)
Definition corpus_pets : list string :=
  [corpus_line "1" "" "cat"; corpus_line "2" "dog" "";
   corpus_line "3" "cat" "dog  cat"; corpus_line "4" "" "fish"].

(** The line has at least three tab-separated fields. *)
Definition three_fields (line : string) : bool :=
  (3 <=? length (split_on tab line))%nat.

(** A non-empty string without whitespace. *)
Definition is_word (s : string) : bool :=
  truthy s && all_chars (fun c => negb (isspace_char c)) s.

(** Every key is a word and no posting set is empty. *)
Definition index_invariant (index : Index) : Prop :=
  forall key postings,
    index !! key = Some postings -> is_word key = true /\ postings <> ∅.

(** ** Search results and the submission file *)

(** [f"{query_index}, {document_index}"], the query id being an [int] that
    is not negative and the document id a [str]. *)
Definition result_key (query_index : nat) (document_index : DocId) : string :=
  pretty query_index +:+ ", " +:+ document_index.

(** [SearchResults.add(found)], on the set [self.results]; iterating over
    [None] raises [TypeError]. *)
Definition SearchResults_add (results : gset string) (found : nat * pyval)
  : result (gset string) :=
  let '(query_index, documents_indices) := found in
  match documents_indices with
  | PySet docs => Ok (results ∪ set_map (result_key query_index) docs)
  | PyNone => Raise TypeError
  end.

(** The calls [add(found)] for the elements of [founds], in order. *)
Fixpoint add_all (founds : list (nat * pyval)) (results : gset string)
  : result (gset string) :=
  match founds with
  | [] => Ok results
  | found :: founds' =>
      results' ← SearchResults_add results found;
      add_all founds' results'
  end.

(** The three statements of the query loop of [main] that follow the
    reading of the query id and the query text: build the [QueryTree],
    search, add. *)
Definition run_query (index : Index) (results : gset string) (q : nat)
  (query : string) : result (gset string) :=
  query_tree ← QueryTree_init q query;
  found ← search query_tree index;
  SearchResults_add results found.

(** [s.lstrip()], [s.rstrip()] and [s.strip()]. *)
Fixpoint lstrip (s : string) : string :=
  match s with
  | EmptyString => ""
  | String c s' => if isspace_char c then lstrip s' else s
  end.

Fixpoint rstrip (s : string) : string :=
  match s with
  | EmptyString => ""
  | String c s' =>
      let r := rstrip s' in
      if negb (truthy r) && isspace_char c then "" else String c r
  end.

Definition strip (s : string) : string := rstrip (lstrip s).

(** [s.startswith(prefix)] *)
Definition startswith (s prefix : string) : bool := String.prefix prefix s.

(** The outcome of writing: the strings written, or the [ValueError] of an
    unpacking with the wrong number of values. *)
Inductive outcome (A : Type) : Type :=
| Written (a : A)
| ValueError.

Arguments Written {A} a.
Arguments ValueError {A}.

(** The body of [for line in objects_f] in [print_submission]: the string
    it writes. *)
Definition submission_line (results : gset string) (line : string)
  : outcome string :=
  if startswith line "ObjectId" then Written ("ObjectId,Relevance" +:+ newline)
  else
    match split_on "," (strip line) with
    | [ObjectId; QueryId; DocumentId] =>
        if decide (QueryId +:+ ", " +:+ DocumentId ∈ results)
        then Written (ObjectId +:+ ",1" +:+ newline)
        else Written (ObjectId +:+ ",0" +:+ newline)
    | _ => ValueError
    end.

(** [SearchResults.print_submission], from the lines of the objects file to
    the strings written to the submission file. *)
Fixpoint print_submission (results : gset string) (lines : list string)
  : outcome (list string) :=
  match lines with
  | [] => Written []
  | line :: lines' =>
      match submission_line results line with
      | Written text =>
          match print_submission results lines' with
          | Written texts => Written (text :: texts)
          | ValueError => ValueError
          end
      | ValueError => ValueError
      end
  end.

(** The string holds no comma. *)
Definition no_comma (s : string) : bool :=
  all_chars (fun c => negb (Ascii.eqb c ",")) s.

(** The line has exactly three comma-separated fields once stripped, or
    starts with [ObjectId]. *)
Definition object_line_ok (line : string) : bool :=
  startswith line "ObjectId" ||
  (length (split_on "," (strip line)) =? 3)%nat.

(** ** Documents and the expressions they satisfy *)

(** The word occurs in a line of the corpus whose id is [d]. *)
Definition doc_has_word (lines : list string) (d : DocId) (w : string) : Prop :=
  exists line words,
    line ∈ lines /\ line_words line = Ok (d, words) /\ w ∈ words.

(** Some line of the corpus with id [d] has a word. *)
Definition doc_known (lines : list string) (d : DocId) : Prop :=
  exists w, doc_has_word lines d w.

Fixpoint satisfies (lines : list string) (d : DocId) (e : expr) : Prop :=
  match e with
  | ETerm a => doc_has_word lines d a
  | ENot e1 => doc_known lines d /\ ~ satisfies lines d e1
  | EAnd e1 e2 => satisfies lines d e1 /\ satisfies lines d e2
  | EOr e1 e2 => satisfies lines d e1 \/ satisfies lines d e2
  end.

(** ** The tokenizer *)

Lemma string_app_assoc (s1 s2 s3 : string) :
  (s1 +:+ s2) +:+ s3 = s1 +:+ (s2 +:+ s3).
Proof.
  induction s1 as [|c s1 IH]; [reflexivity |].
  change (String c ((s1 +:+ s2) +:+ s3) = String c (s1 +:+ (s2 +:+ s3))).
  now f_equal.
Qed.

Lemma string_app_cons (c : ascii) (s1 s2 : string) :
  String c s1 +:+ s2 = String c (s1 +:+ s2).
Proof. reflexivity. Qed.

Lemma string_app_nil_l (s : string) : "" +:+ s = s.
Proof. reflexivity. Qed.

Lemma string_app_nil_r (s : string) : s +:+ "" = s.
Proof.
  induction s as [|c s IH]; [reflexivity |].
  change (String c (s +:+ "") = String c s).
  now f_equal.
Qed.

Lemma tokenize_loop_acc (query : string) :
  forall tokens token,
    tokenize_loop query tokens token =
    (tokens ++ (tokenize_loop query [] token).1,
     (tokenize_loop query [] token).2).
Proof.
  induction query as [|c query IH]; intros tokens token; simpl.
  - now rewrite app_nil_r.
  - destruct (is_separator c).
    + rewrite IH. rewrite (IH (_ ++ [String c ""])). simpl.
      destruct (truthy token); simpl; now rewrite <- ?app_assoc.
    + apply IH.
Qed.

Lemma tokenize_tokens_from (query : string) :
  tokenize query = tokens_from query "".
Proof.
  unfold tokenize, tokens_from, pending.
  destruct (tokenize_loop query [] "") as [tokens token].
  destruct (truthy token); [reflexivity | now rewrite app_nil_r].
Qed.

Lemma tokens_from_nil (token : string) : tokens_from "" token = pending token.
Proof. reflexivity. Qed.

Lemma tokens_from_separator (c : ascii) (query token : string) :
  is_separator c = true ->
  tokens_from (String c query) token =
  pending token ++ String c "" :: tokens_from query "".
Proof.
  intros Hc. unfold tokens_from. simpl. rewrite Hc.
  rewrite tokenize_loop_acc.
  destruct (tokenize_loop query [] "") as [tokens token']. simpl.
  unfold pending at 2. destruct (truthy token); simpl;
    now rewrite <- ?app_assoc.
Qed.

Lemma tokens_from_char (c : ascii) (query token : string) :
  is_separator c = false ->
  tokens_from (String c query) token =
  tokens_from query (token +:+ String c "").
Proof. intros Hc. unfold tokens_from. simpl. now rewrite Hc. Qed.

Lemma tokens_from_run (run : string) :
  forall query token,
    all_chars (fun c => negb (is_separator c)) run = true ->
    tokens_from (run +:+ query) token = tokens_from query (token +:+ run).
Proof.
  induction run as [|c run IH]; intros query token Hrun.
  - now rewrite string_app_nil_r.
  - simpl in Hrun. apply andb_prop in Hrun as [Hc Hrun].
    apply negb_true_iff in Hc.
    change (String c run +:+ query) with (String c (run +:+ query)).
    rewrite tokens_from_char by exact Hc.
    rewrite IH by exact Hrun.
    now rewrite string_app_assoc.
Qed.

Lemma is_term_operand (a : string) : is_term a = true -> is_operand a = true.
Proof. unfold is_term. intros H. now apply andb_prop in H. Qed.

Lemma is_term_no_separator (a : string) :
  is_term a = true -> all_chars (fun c => negb (is_separator c)) a = true.
Proof. unfold is_term. intros H. now apply andb_prop in H. Qed.

Lemma is_operand_truthy (a : string) : is_operand a = true -> truthy a = true.
Proof. destruct a; [discriminate | reflexivity]. Qed.

Lemma pending_term (a : string) : is_term a = true -> pending a = [a].
Proof.
  intros Ha. unfold pending.
  now rewrite (is_operand_truthy a (is_term_operand a Ha)).
Qed.

Lemma tokens_from_sep (c : ascii) (query : string) :
  is_separator c = true ->
  tokens_from (String c query) "" = String c "" :: tokens_from query "".
Proof. intros Hc. now rewrite tokens_from_separator. Qed.

Lemma tokens_from_term_sep (a : string) (c : ascii) (query : string) :
  is_term a = true -> is_separator c = true ->
  tokens_from (a +:+ String c query) "" =
  a :: String c "" :: tokens_from query "".
Proof.
  intros Ha Hc.
  rewrite tokens_from_run by now apply is_term_no_separator.
  rewrite tokens_from_separator by exact Hc.
  change ("" +:+ a) with a. now rewrite pending_term.
Qed.

Lemma tokens_from_term (a : string) :
  is_term a = true -> tokens_from a "" = [a].
Proof.
  intros Ha. rewrite <- (string_app_nil_r a) at 1.
  rewrite tokens_from_run by now apply is_term_no_separator.
  rewrite tokens_from_nil. change ("" +:+ a) with a. now apply pending_term.
Qed.

(** Tokenizes a query text built from terms and separator characters. *)
Ltac tokenize_query :=
  rewrite ?tokenize_tokens_from;
  repeat first [rewrite string_app_cons | rewrite string_app_nil_l];
  repeat first
    [ rewrite tokens_from_term_sep by (assumption || reflexivity)
    | rewrite tokens_from_sep by reflexivity
    | rewrite tokens_from_term by assumption
    | rewrite tokens_from_nil; cbn [pending truthy] ].

(** ** The parser *)

Lemma parse_tokens_cons (token : string) (tokens : list string)
  (st : list node * list string) :
  parse_tokens (token :: tokens) st =
  (st' ← parse_token token st; parse_tokens tokens st').
Proof. reflexivity. Qed.

Lemma bind_Ok {A B : Type} (a : A) (k : A -> result B) :
  (x ← Ok a; k x) = k a.
Proof. reflexivity. Qed.

Lemma bind_Raise {A B : Type} (e : exn) (k : A -> result B) :
  (x ← Raise e; k x) = Raise e.
Proof. reflexivity. Qed.

(** The three loops are the [while] loops of the source around
    [apply_operator]. *)
Lemma close_loop_while (operators : list string) (stack : list node) :
  close_loop operators stack =
  match operators with
  | top :: _ =>
      if negb (String.eqb top "(") then
        '(stack', operators') ← apply_operator (stack, operators);
        close_loop operators' stack'
      else Ok (stack, operators)
  | [] => Ok (stack, operators)
  end.
Proof.
  destruct operators as [|top operators]; [reflexivity |]. simpl.
  destruct (String.eqb top "("); [reflexivity |]. simpl.
  now destruct (apply_to_stack top stack).
Qed.

Lemma reduce_loop_while (token : string) (operators : list string)
  (stack : list node) :
  reduce_loop token operators stack =
  match operators with
  | top :: _ =>
      if negb (String.eqb top "(") then
        ptop ← precedence_of top;
        ptoken ← precedence_of token;
        if (ptoken <=? ptop)%nat then
          '(stack', operators') ← apply_operator (stack, operators);
          reduce_loop token operators' stack'
        else Ok (stack, operators)
      else Ok (stack, operators)
  | [] => Ok (stack, operators)
  end.
Proof.
  destruct operators as [|top operators]; [reflexivity |]. simpl.
  destruct (String.eqb top "("); [reflexivity |]. simpl.
  destruct (precedence_of top) as [ptop|]; [| reflexivity]. simpl.
  destruct (precedence_of token) as [ptoken|]; [| reflexivity]. simpl.
  destruct (ptoken <=? ptop)%nat; [| reflexivity].
  now destruct (apply_to_stack top stack).
Qed.

Lemma drain_loop_while (operators : list string) (stack : list node) :
  drain_loop operators stack =
  match operators with
  | _ :: _ =>
      '(stack', operators') ← apply_operator (stack, operators);
      drain_loop operators' stack'
  | [] => Ok stack
  end.
Proof.
  destruct operators as [|top operators]; [reflexivity |]. simpl.
  now destruct (apply_to_stack top stack).
Qed.

Lemma parse_token_operand (token : string) (stack : list node)
  (operators : list string) :
  is_operand token = true ->
  parse_token token (stack, operators) = Ok (leaf token :: stack, operators).
Proof. intros H. unfold parse_token. now rewrite H. Qed.

Lemma parse_token_term (token : string) (stack : list node)
  (operators : list string) :
  is_term token = true ->
  parse_token token (stack, operators) = Ok (leaf token :: stack, operators).
Proof. intros H. now apply parse_token_operand, is_term_operand. Qed.

(** Runs the parser on a token list whose operand tokens are terms of the
    context and whose other tokens are literal. *)
Ltac parse_step :=
  match goal with
  | |- context [parse_tokens (?t :: ?ts) ?st] =>
      rewrite (parse_tokens_cons t ts st)
  | |- context [parse_token ?t (?s, ?o)] =>
      first
        [ rewrite (parse_token_term t s o) by assumption
        | let b := eval vm_compute in (is_operand t) in
          match b with
          | false =>
              let r := eval vm_compute in (parse_token t (s, o)) in
              change (parse_token t (s, o)) with r
          end ]
  | |- context [mbind _ (Ok _)] => rewrite bind_Ok
  | |- context [mbind _ (Raise _)] => rewrite bind_Raise
  end.

Ltac run_parser :=
  unfold parse_query, parse; tokenize_query; repeat parse_step;
  cbn [parse_tokens]; try (vm_compute; reflexivity).

Lemma parse_and_or (a b c : string) :
  is_term a = true -> is_term b = true -> is_term c = true ->
  parse_query (a +:+ " " +:+ b +:+ "|" +:+ c) =
  Ok (BooleanNode "|" (BooleanNode " " (leaf a) (leaf b)) (leaf c)).
Proof. intros Ha Hb Hc. run_parser. Qed.

(** ** The evaluator *)

Lemma evaluate_tree_term (v : string) (l r : node) (index : Index) :
  is_operand v = true ->
  evaluate_tree (BooleanNode v l r) index = Ok (PySet (Index_get index v ∅)).
Proof. intros H. simpl. now rewrite H. Qed.

Lemma evaluate_tree_leaf (a : string) (index : Index) :
  is_term a = true ->
  evaluate_tree (leaf a) index = Ok (PySet (Index_get index a ∅)).
Proof. intros H. now apply evaluate_tree_term, is_term_operand. Qed.

Lemma evaluate_tree_not (l r : node) (index : Index) :
  evaluate_tree (BooleanNode "!" l r) index =
  (x ← evaluate_tree l index;
   py_binop (fun s t => s ∖ t) (PySet (all_docs index)) x).
Proof. reflexivity. Qed.

Lemma evaluate_tree_and (l r : node) (index : Index) :
  evaluate_tree (BooleanNode " " l r) index =
  (x ← evaluate_tree l index; y ← evaluate_tree r index;
   py_binop (fun s t => s ∩ t) x y).
Proof. reflexivity. Qed.

Lemma evaluate_tree_or (l r : node) (index : Index) :
  evaluate_tree (BooleanNode "|" l r) index =
  (x ← evaluate_tree l index; y ← evaluate_tree r index;
   py_binop (fun s t => s ∪ t) x y).
Proof. reflexivity. Qed.

(** Evaluates a tree whose leaves are terms of the context. *)
Ltac run_evaluator :=
  repeat first
    [ rewrite evaluate_tree_not
    | rewrite evaluate_tree_and
    | rewrite evaluate_tree_or
    | rewrite evaluate_tree_leaf by assumption
    | rewrite bind_Ok
    | progress cbn [py_binop] ].

Lemma postings_in_all_docs (index : Index) (key : string) (postings : gset DocId) :
  index !! key = Some postings -> postings ⊆ all_docs index.
Proof.
  intros Hkey x Hx. unfold all_docs, Index_values.
  apply elem_of_union_list. exists postings. split; [| exact Hx].
  apply list_elem_of_fmap. exists (key, postings). split; [reflexivity |].
  now apply elem_of_map_to_list.
Qed.

Lemma Index_get_in_all_docs (index : Index) (key : string) :
  Index_get index key ∅ ⊆ all_docs index.
Proof.
  unfold Index_get. destruct (index !! key) as [postings|] eqn:Hkey.
  - now apply postings_in_all_docs with key.
  - apply empty_subseteq.
Qed.

(** Whenever the evaluator returns a set, the set lies in the universe. *)
Lemma evaluate_tree_in_all_docs (t : node) (index : Index) :
  forall s, evaluate_tree t index = Ok (PySet s) -> s ⊆ all_docs index.
Proof.
  induction t as [|v l IHl r IHr]; intros s; simpl.
  - intros [= <-]. apply empty_subseteq.
  - destruct (is_operand v).
    { intros [= <-]. apply Index_get_in_all_docs. }
    destruct (String.eqb v "!").
    { destruct (evaluate_tree l index) as [[sx|]|e]; simpl; try discriminate.
      intros [= <-]. now apply subseteq_difference_l. }
    destruct (String.eqb v " ").
    { destruct (evaluate_tree l index) as [[sx|]|e]; simpl; try discriminate;
        destruct (evaluate_tree r index) as [[sy|]|e']; simpl; try discriminate.
      intros [= <-]. transitivity sx; [apply intersection_subseteq_l |].
      now apply IHl. }
    destruct (String.eqb v "|").
    { destruct (evaluate_tree l index) as [[sx|]|e]; simpl; try discriminate;
        destruct (evaluate_tree r index) as [[sy|]|e']; simpl; try discriminate.
      intros [= <-]. apply union_least; [now apply IHl | now apply IHr]. }
    discriminate.
Qed.

(** On a well-tagged tree the evaluator returns a set. *)
Lemma evaluate_tree_well_tagged (t : node) (index : Index) :
  well_tagged t = true -> exists s, evaluate_tree t index = Ok (PySet s).
Proof.
  induction t as [|v l IHl r IHr]; simpl.
  - intros _. now exists ∅.
  - destruct (is_operand v); [intros _; eauto |].
    destruct (String.eqb v "!").
    { intros Hl. destruct (IHl Hl) as [sl ->]. simpl. eauto. }
    destruct (String.eqb v " ") eqn:Hand.
    { simpl. intros H. apply andb_prop in H as [Hl Hr].
      destruct (IHl Hl) as [sl ->], (IHr Hr) as [sr ->]. simpl. eauto. }
    destruct (String.eqb v "|").
    { simpl. intros H. apply andb_prop in H as [Hl Hr].
      destruct (IHl Hl) as [sl ->], (IHr Hr) as [sr ->]. simpl. eauto. }
    discriminate.
Qed.

Lemma difference_intersection (u a b : gset DocId) : u ∖ (a ∩ b) = (u ∖ a) ∪ (u ∖ b).
Proof.
  apply set_eq. intros x.
  rewrite elem_of_union, !elem_of_difference, elem_of_intersection.
  destruct (decide (x ∈ a)); tauto.
Qed.

Lemma difference_union (u a b : gset DocId) : u ∖ (a ∪ b) = (u ∖ a) ∩ (u ∖ b).
Proof.
  apply set_eq. intros x.
  rewrite elem_of_intersection, !elem_of_difference, elem_of_union. tauto.
Qed.

Lemma double_complement (u a : gset DocId) : u ∖ (u ∖ a) = a ∩ u.
Proof.
  apply set_eq. intros x.
  rewrite elem_of_intersection, !elem_of_difference.
  destruct (decide (x ∈ a)); tauto.
Qed.

Lemma elem_of_all_docs (index : Index) (x : DocId) :
  x ∈ all_docs index <->
  exists key postings, index !! key = Some postings /\ x ∈ postings.
Proof.
  split.
  - unfold all_docs, Index_values. intros H.
    apply elem_of_union_list in H as (postings & Hin & Hx).
    apply list_elem_of_fmap in Hin as ([key p] & -> & Hkp).
    apply elem_of_map_to_list in Hkp. now exists key, p.
  - intros (key & postings & Hkey & Hx).
    now apply (postings_in_all_docs index key postings).
Qed.

Lemma parse_and (a b : string) :
  is_term a = true -> is_term b = true ->
  parse_query (a +:+ " " +:+ b) = Ok (BooleanNode " " (leaf a) (leaf b)).
Proof. intros Ha Hb. run_parser. Qed.

(** The query object computes [evaluate] and pairs it with the query id. *)
Lemma search_evaluate (q : nat) (query : string) (index : Index) :
  (qt ← QueryTree_init q query; search qt index) =
  (v ← evaluate query index; Ok (q, v)).
Proof.
  unfold QueryTree_init, search, evaluate.
  destruct (parse_query query) as [t|e]; [| reflexivity]. simpl.
  now destruct (evaluate_tree t index).
Qed.

(** The concrete scenario on the index cat, dog, fish. *)
Example scenario_and : evaluate "cat dog" index_pets = Ok (PySet {["3"]}).
Proof. vm_compute. reflexivity. Qed.

Example scenario_or :
  evaluate "cat|dog" index_pets = Ok (PySet {["1"; "2"; "3"]}).
Proof. vm_compute. reflexivity. Qed.

Example scenario_not : evaluate "!cat" index_pets = Ok (PySet {["2"; "4"]}).
Proof. vm_compute. reflexivity. Qed.

Example scenario_or_and_not :
  evaluate "cat|dog !fish" index_pets = Ok (PySet {["1"; "2"; "3"]}).
Proof. vm_compute. reflexivity. Qed.

Example operand_examples :
  isalnum "abc1" = true /\ isalnum "a_b" = false /\ isalnum "" = false /\
  is_operand "a_b" = true /\ is_operand "x-y" = false /\
  is_operand "!" = false /\ is_operand " " = false.
Proof. repeat split. Qed.

(** ** Precedence *)

Lemma precedence_table :
  precedence_of "!" = Ok 3 /\ precedence_of " " = Ok 2 /\
  precedence_of "|" = Ok 1.
Proof. repeat split; vm_compute; reflexivity. Qed.

Lemma evaluate_and_or (a b c : string) (index : Index) :
  is_term a = true -> is_term b = true -> is_term c = true ->
  evaluate (a +:+ " " +:+ b +:+ "|" +:+ c) index =
  Ok (PySet ((Index_get index a ∅ ∩ Index_get index b ∅)
             ∪ Index_get index c ∅)).
Proof.
  intros Ha Hb Hc. unfold evaluate.
  rewrite parse_and_or by assumption. rewrite bind_Ok.
  now run_evaluator.
Qed.

(** C1: for all terms a, b, c and every index, the query [a b|c] parses to
    the tree OR(AND(a, b), c) and evaluates to
    (postings(a) ∩ postings(b)) ∪ postings(c); the precedence table is
    NOT 3, AND 2, OR 1; and on [index_abc] this result differs from
    postings(a) ∩ (postings(b) ∪ postings(c)). *)
Theorem and_binds_tighter_than_or (a b c : string) (index : Index) :
  is_term a = true -> is_term b = true -> is_term c = true ->
  parse_query (a +:+ " " +:+ b +:+ "|" +:+ c) =
    Ok (BooleanNode "|" (BooleanNode " " (leaf a) (leaf b)) (leaf c)) /\
  evaluate (a +:+ " " +:+ b +:+ "|" +:+ c) index =
    Ok (PySet ((Index_get index a ∅ ∩ Index_get index b ∅)
               ∪ Index_get index c ∅)) /\
  (precedence_of "!" = Ok 3 /\ precedence_of " " = Ok 2 /\
   precedence_of "|" = Ok 1) /\
  evaluate "a b|c" index_abc <>
    Ok (PySet (Index_get index_abc "a" ∅
               ∩ (Index_get index_abc "b" ∅ ∪ Index_get index_abc "c" ∅))).
Proof.
  intros Ha Hb Hc. split; [now apply parse_and_or |].
  split; [now apply evaluate_and_or |].
  split; [exact precedence_table |].
  rewrite (evaluate_and_or "a" "b" "c") by reflexivity.
  intros H.
  apply (f_equal (fun v => match v with
                           | Ok (PySet s) => bool_decide ("3" ∈ s)
                           | _ => false
                           end)) in H.
  vm_compute in H. discriminate.
Qed.

Lemma and_binds_tighter_than_or_witness :
  (is_term "a" = true /\ is_term "b" = true /\ is_term "c" = true) /\
  parse_query "a b|c" =
    Ok (BooleanNode "|" (BooleanNode " " (leaf "a") (leaf "b")) (leaf "c")) /\
  evaluate "a b|c" index_abc =
    Ok (PySet ((Index_get index_abc "a" ∅ ∩ Index_get index_abc "b" ∅)
               ∪ Index_get index_abc "c" ∅)).
Proof.
  split; [repeat split; reflexivity |].
  split; apply (and_binds_tighter_than_or "a" "b" "c" index_abc);
    reflexivity.
Defined.

(** ** Negation and the universe *)

(** C2: a NOT node over a well-tagged child evaluates to the universe minus
    the value of the child, where the universe, computed from the index at
    that node, holds exactly the document ids of all posting sets; when
    every posting set of the index is empty the NOT node evaluates to the
    empty set, without an error. *)
Theorem not_is_complement_in_universe (child r : node) (index : Index) :
  well_tagged child = true ->
  (forall x, x ∈ all_docs index <->
     exists key postings, index !! key = Some postings /\ x ∈ postings) /\
  (exists s, evaluate_tree child index = Ok (PySet s) /\
     evaluate_tree (BooleanNode "!" child r) index =
       Ok (PySet (all_docs index ∖ s))) /\
  ((forall key postings, index !! key = Some postings -> postings = ∅) ->
   evaluate_tree (BooleanNode "!" child r) index = Ok (PySet ∅)).
Proof.
  intros Hchild. split; [apply elem_of_all_docs |].
  destruct (evaluate_tree_well_tagged child index Hchild) as [s Hs].
  rewrite evaluate_tree_not, Hs, bind_Ok. cbn [py_binop].
  split; [now exists s |].
  intros Hempty. do 2 f_equal.
  apply set_eq. intros x. rewrite elem_of_difference, elem_of_all_docs.
  split; [| intros Hx; now apply not_elem_of_empty in Hx].
  intros [(key & postings & Hkey & Hx) _].
  now rewrite (Hempty key postings Hkey) in Hx.
Qed.

Lemma not_is_complement_in_universe_witness :
  well_tagged (leaf "cat") = true /\
  exists s, evaluate_tree (leaf "cat") index_pets = Ok (PySet s) /\
    evaluate_tree (BooleanNode "!" (leaf "cat") NoneNode) index_pets =
      Ok (PySet (all_docs index_pets ∖ s)).
Proof.
  split; [reflexivity |].
  apply (not_is_complement_in_universe (leaf "cat") NoneNode index_pets).
  reflexivity.
Defined.

(** ** Unknown terms *)

(** C8: a Term node whose term is absent from the index evaluates to the
    empty set, without an error, and a conjunction with such a term is
    empty; in particular on the index [{"a": {1, 2}}] the query
    [a missingterm] evaluates to the empty set. *)
Theorem unknown_term_is_empty (index : Index) (a m : string) (l r : node) :
  is_term a = true -> is_term m = true -> index !! m = None ->
  evaluate_tree (BooleanNode m l r) index = Ok (PySet ∅) /\
  evaluate (a +:+ " " +:+ m) index = Ok (PySet ∅).
Proof.
  intros Ha Hm Hnone.
  assert (Hget : Index_get index m ∅ = ∅).
  { unfold Index_get. now rewrite Hnone. }
  split.
  - rewrite evaluate_tree_term by now apply is_term_operand.
    now rewrite Hget.
  - unfold evaluate. rewrite parse_and by assumption. rewrite bind_Ok.
    run_evaluator. rewrite Hget. do 2 f_equal. apply intersection_empty_r_L.
Qed.

Lemma unknown_term_is_empty_witness :
  (is_term "a" = true /\ is_term "missingterm" = true /\
   index_a !! "missingterm" = None) /\
  evaluate "a missingterm" index_a = Ok (PySet ∅).
Proof.
  split; [repeat split; vm_compute; reflexivity |].
  apply (unknown_term_is_empty index_a "a" "missingterm" NoneNode NoneNode);
    vm_compute; reflexivity.
Defined.

(** ** Results stay inside the universe *)

(** C9: on every index, a tree whose nodes are Term, NOT, AND and OR nodes
    (the [None] tree included) evaluates to a set, and that set is included
    in the union of all posting sets of the index. *)
Theorem evaluate_tree_within_universe (t : node) (index : Index) :
  well_tagged t = true ->
  exists s, evaluate_tree t index = Ok (PySet s) /\ s ⊆ all_docs index.
Proof.
  intros Ht. destruct (evaluate_tree_well_tagged t index Ht) as [s Hs].
  exists s. split; [exact Hs |].
  now apply (evaluate_tree_in_all_docs t index).
Qed.

Lemma evaluate_tree_within_universe_witness :
  well_tagged (BooleanNode "|" (leaf "cat")
                 (BooleanNode "!" (leaf "fish") NoneNode)) = true /\
  exists s,
    evaluate_tree (BooleanNode "|" (leaf "cat")
                     (BooleanNode "!" (leaf "fish") NoneNode)) index_pets =
      Ok (PySet s) /\
    s ⊆ all_docs index_pets.
Proof.
  split; [reflexivity |].
  apply (evaluate_tree_within_universe
           (BooleanNode "|" (leaf "cat")
              (BooleanNode "!" (leaf "fish") NoneNode)) index_pets).
  reflexivity.
Defined.

(** ** Shape of the token list *)

Lemma all_chars_app (p : ascii -> bool) (s1 s2 : string) :
  all_chars p (s1 +:+ s2) = all_chars p s1 && all_chars p s2.
Proof.
  induction s1 as [|c s1 IH]; [reflexivity |].
  rewrite string_app_cons. simpl. now rewrite IH, andb_assoc.
Qed.

Lemma is_run_separator (c : ascii) :
  is_separator c = true -> is_run (String c "") = false.
Proof. intros Hc. unfold is_run. simpl. now rewrite Hc. Qed.

Lemma concat_tokens_pending (token : string) (tokens : list string) :
  concat_tokens (pending token ++ tokens) = token +:+ concat_tokens tokens.
Proof. destruct token; reflexivity. Qed.

Lemma tokens_from_concat (query : string) :
  forall token, concat_tokens (tokens_from query token) = token +:+ query.
Proof.
  induction query as [|c query IH]; intros token.
  - rewrite tokens_from_nil, <- (app_nil_r (pending token)).
    now rewrite concat_tokens_pending.
  - destruct (is_separator c) eqn:Hc.
    + rewrite tokens_from_separator by exact Hc.
      rewrite concat_tokens_pending. simpl. rewrite IH.
      now rewrite string_app_nil_l.
    + rewrite tokens_from_char by exact Hc. rewrite IH.
      now rewrite string_app_assoc.
Qed.

Lemma tokens_from_shape (query : string) :
  forall token,
    all_chars (fun c => negb (is_separator c)) token = true ->
    Forall (fun t => is_separator_token t || is_run t = true)
           (tokens_from query token).
Proof.
  induction query as [|c query IH]; intros token Htoken.
  - rewrite tokens_from_nil. unfold pending.
    destruct (truthy token) eqn:Ht; constructor; [| constructor].
    unfold is_run. rewrite Ht, Htoken. apply orb_true_r.
  - destruct (is_separator c) eqn:Hc.
    + rewrite tokens_from_separator by exact Hc.
      apply Forall_app. split.
      * unfold pending. destruct (truthy token) eqn:Ht; constructor;
          [| constructor].
        unfold is_run. rewrite Ht, Htoken. apply orb_true_r.
      * constructor; [simpl; now rewrite Hc | now apply IH].
    + rewrite tokens_from_char by exact Hc. apply IH.
      rewrite all_chars_app, Htoken. simpl. now rewrite Hc.
Qed.

Lemma runs_separated_separator (c : ascii) (tokens : list string) :
  is_separator c = true ->
  runs_separated (String c "" :: tokens) = runs_separated tokens.
Proof.
  intros Hc. destruct tokens as [|t tokens]; [reflexivity |].
  cbn [runs_separated]. now rewrite is_run_separator.
Qed.

Lemma runs_separated_before_separator (t : string) (c : ascii)
  (tokens : list string) :
  is_separator c = true ->
  runs_separated (t :: String c "" :: tokens) =
  runs_separated (String c "" :: tokens).
Proof.
  intros Hc.
  change (runs_separated (t :: String c "" :: tokens))
    with (negb (is_run t && is_run (String c "")) &&
          runs_separated (String c "" :: tokens)).
  now rewrite (is_run_separator c Hc), andb_false_r.
Qed.

Lemma tokens_from_separated (query : string) :
  forall token, runs_separated (tokens_from query token) = true.
Proof.
  induction query as [|c query IH]; intros token.
  - rewrite tokens_from_nil. unfold pending. now destruct (truthy token).
  - destruct (is_separator c) eqn:Hc.
    + rewrite tokens_from_separator by exact Hc.
      unfold pending. destruct (truthy token); cbn [app].
      * rewrite runs_separated_before_separator by exact Hc.
        rewrite runs_separated_separator by exact Hc. apply IH.
      * rewrite runs_separated_separator by exact Hc. apply IH.
    + rewrite tokens_from_char by exact Hc. apply IH.
Qed.

(** ** Failures of the parser *)

Lemma apply_to_stack_exn (operator : string) (stack : list node) (e : exn) :
  apply_to_stack operator stack = Raise e -> e = IndexError.
Proof.
  unfold apply_to_stack.
  destruct (String.eqb operator "!"), stack as [|x [|y stack]];
    intros H; congruence.
Qed.

Lemma precedence_of_exn (k : string) (e : exn) :
  precedence_of k = Raise e -> e = KeyError.
Proof. unfold precedence_of. destruct (precedence !! k); congruence. Qed.

Lemma close_loop_exn (operators : list string) :
  forall stack e, close_loop operators stack = Raise e -> e = IndexError.
Proof.
  induction operators as [|top operators IH]; intros stack e; simpl.
  - discriminate.
  - destruct (String.eqb top "("); [discriminate |].
    destruct (apply_to_stack top stack) as [stack'|e'] eqn:Happly; simpl.
    + apply IH.
    + intros [= <-]. now apply apply_to_stack_exn in Happly.
Qed.

Lemma reduce_loop_exn (token : string) (operators : list string) :
  forall stack e,
    reduce_loop token operators stack = Raise e ->
    e = IndexError \/ e = KeyError.
Proof.
  induction operators as [|top operators IH]; intros stack e; simpl.
  - discriminate.
  - destruct (String.eqb top "("); [discriminate |].
    destruct (precedence_of top) as [ptop|e1] eqn:Htop; simpl;
      [| intros [= <-]; right; now apply precedence_of_exn in Htop].
    destruct (precedence_of token) as [ptoken|e2] eqn:Htoken; simpl;
      [| intros [= <-]; right; now apply precedence_of_exn in Htoken].
    destruct (ptoken <=? ptop)%nat; [| discriminate].
    destruct (apply_to_stack top stack) as [stack'|e'] eqn:Happly; simpl.
    + apply IH.
    + intros [= <-]. left. now apply apply_to_stack_exn in Happly.
Qed.

Lemma drain_loop_exn (operators : list string) :
  forall stack e, drain_loop operators stack = Raise e -> e = IndexError.
Proof.
  induction operators as [|top operators IH]; intros stack e; simpl.
  - discriminate.
  - destruct (apply_to_stack top stack) as [stack'|e'] eqn:Happly; simpl.
    + apply IH.
    + intros [= <-]. now apply apply_to_stack_exn in Happly.
Qed.

Lemma parse_token_exn (token : string) (st : list node * list string) (e : exn) :
  parse_token token st = Raise e -> e = IndexError \/ e = KeyError.
Proof.
  destruct st as [stack operators]. unfold parse_token.
  destruct (is_operand token); [discriminate |].
  destruct (String.eqb token "("); [discriminate |].
  destruct (String.eqb token ")").
  - destruct (close_loop operators stack) as [[stack' operators']|e'] eqn:Hloop;
      simpl.
    + destruct operators'; [intros [= <-]; now left | discriminate].
    + intros [= <-]. left. now apply close_loop_exn in Hloop.
  - destruct (reduce_loop token operators stack) as [[stack' operators']|e']
      eqn:Hloop; simpl; [discriminate |].
    intros [= <-]. now apply reduce_loop_exn in Hloop.
Qed.

Lemma parse_tokens_exn (tokens : list string) :
  forall st e, parse_tokens tokens st = Raise e -> e = IndexError \/ e = KeyError.
Proof.
  induction tokens as [|token tokens IH]; intros st e; simpl.
  - discriminate.
  - destruct (parse_token token st) as [st'|e'] eqn:Htoken; simpl.
    + apply IH.
    + intros [= <-]. now apply parse_token_exn in Htoken.
Qed.

Lemma parse_exn (tokens : list string) (e : exn) :
  parse tokens = Raise e -> e = IndexError \/ e = KeyError.
Proof.
  unfold parse.
  destruct (parse_tokens tokens ([], [])) as [[stack operators]|e'] eqn:Htokens;
    simpl; [| intros [= <-]; now apply parse_tokens_exn in Htokens].
  destruct (drain_loop operators stack) as [stack'|e'] eqn:Hdrain; simpl;
    [| intros [= <-]; left; now apply drain_loop_exn in Hdrain].
  unfold stack_bottom. destruct (last stack'); [discriminate |].
  intros [= <-]. now left.
Qed.

(** ** Negation in the parser *)

Lemma parse_term (a : string) :
  is_term a = true -> parse_query a = Ok (leaf a).
Proof. intros Ha. run_parser. Qed.

Lemma parse_not_paren_and (a b : string) :
  is_term a = true -> is_term b = true ->
  parse_query ("!(" +:+ a +:+ " " +:+ b +:+ ")") =
  Ok (BooleanNode "!" (BooleanNode " " (leaf a) (leaf b)) NoneNode).
Proof. intros Ha Hb. run_parser. Qed.

Lemma parse_not_paren_or (a b : string) :
  is_term a = true -> is_term b = true ->
  parse_query ("!(" +:+ a +:+ "|" +:+ b +:+ ")") =
  Ok (BooleanNode "!" (BooleanNode "|" (leaf a) (leaf b)) NoneNode).
Proof. intros Ha Hb. run_parser. Qed.

Lemma parse_not_or_not (a b : string) :
  is_term a = true -> is_term b = true ->
  parse_query ("!" +:+ a +:+ "|!" +:+ b) =
  Ok (BooleanNode "|" (BooleanNode "!" (leaf a) NoneNode)
                      (BooleanNode "!" (leaf b) NoneNode)).
Proof. intros Ha Hb. run_parser. Qed.

Lemma parse_not_and_not (a b : string) :
  is_term a = true -> is_term b = true ->
  parse_query ("!" +:+ a +:+ " !" +:+ b) =
  Ok (BooleanNode " " (BooleanNode "!" (leaf a) NoneNode)
                      (BooleanNode "!" (leaf b) NoneNode)).
Proof. intros Ha Hb. run_parser. Qed.

(** A space on either side of [|] is one more operator: the [|] pops the
    AND of the space before it while only one operand is on the stack. *)
Lemma parse_not_spaced_or (a : string) (rest : string) :
  is_term a = true ->
  parse_query ("!" +:+ a +:+ " |" +:+ rest) = Raise IndexError.
Proof. intros Ha. run_parser. Qed.

Lemma parse_not_paren_not (a : string) :
  is_term a = true ->
  parse_query ("!(!" +:+ a +:+ ")") =
  Ok (BooleanNode "!" (BooleanNode "!" (leaf a) NoneNode) NoneNode).
Proof. intros Ha. run_parser. Qed.

(** NOT(NOT(X)) is X restricted to the universe, on trees. *)
Lemma evaluate_tree_double_not (t r1 r2 : node) (index : Index) (s : gset DocId) :
  evaluate_tree t index = Ok (PySet s) ->
  evaluate_tree (BooleanNode "!" (BooleanNode "!" t r1) r2) index =
  Ok (PySet (s ∩ all_docs index)).
Proof.
  intros Ht. rewrite !evaluate_tree_not, Ht, !bind_Ok. cbn [py_binop].
  rewrite bind_Ok. cbn [py_binop]. now rewrite double_complement.
Qed.

(** With the inner negation in parentheses the double negation parses, and
    is the identity on a term of the index. *)
Lemma double_negation_in_parentheses (a : string) (index : Index)
  (postings : gset DocId) :
  is_term a = true -> index !! a = Some postings ->
  evaluate ("!(!" +:+ a +:+ ")") index = Ok (PySet postings) /\
  evaluate a index = Ok (PySet postings).
Proof.
  intros Ha Hkey.
  assert (Hget : Index_get index a ∅ = postings).
  { unfold Index_get. now rewrite Hkey. }
  assert (Hleaf : evaluate_tree (leaf a) index = Ok (PySet postings)).
  { rewrite evaluate_tree_leaf by assumption. now rewrite Hget. }
  unfold evaluate.
  rewrite parse_not_paren_not, parse_term by assumption. rewrite !bind_Ok.
  split; [| exact Hleaf].
  rewrite (evaluate_tree_double_not _ _ _ _ _ Hleaf). do 2 f_equal.
  apply subseteq_intersection_1_L.
  now apply (postings_in_all_docs index a).
Qed.

(** C3: the parser does not build the tree NOT(NOT(a)) for [!!a]: on every
    query that starts with two [!] the second [!] pops the first one, whose
    precedence 3 is not below its own, while the operand stack is still
    empty, and [parse_query] raises [IndexError]. *)
Theorem double_negation_raises (rest : string) :
  parse_query ("!!" +:+ rest) = Raise IndexError.
Proof. run_parser. Qed.

(** ** Spaces *)

Lemma parse_double_space (a rest : string) :
  is_term a = true ->
  parse_query (a +:+ "  " +:+ rest) = Raise IndexError.
Proof. intros Ha. run_parser. Qed.

Lemma parse_leading_space (a rest : string) :
  is_term a = true ->
  parse_query (" " +:+ a +:+ " " +:+ rest) = Raise IndexError.
Proof. intros Ha. run_parser. Qed.

Lemma parse_trailing_space (a b : string) :
  is_term a = true -> is_term b = true ->
  parse_query (a +:+ " " +:+ b +:+ " ") = Raise IndexError.
Proof. intros Ha Hb. run_parser. Qed.

(** C4, refuted as stated: [a  b] and [ a b ] do not parse, so they do not
    evaluate like [a b]. *)
Lemma spaces_not_collapsed :
  parse_query "a  b" = Raise IndexError /\
  parse_query " a b " = Raise IndexError /\
  evaluate "a  b" index_a <> evaluate "a b" index_a /\
  evaluate " a b " index_a <> evaluate "a b" index_a.
Proof.
  assert (H1 : parse_query "a  b" = Raise IndexError) by (vm_compute; reflexivity).
  assert (H2 : parse_query " a b " = Raise IndexError) by (vm_compute; reflexivity).
  assert (H3 : parse_query "a b" = Ok (BooleanNode " " (leaf "a") (leaf "b")))
    by (vm_compute; reflexivity).
  repeat split; try assumption; unfold evaluate;
    rewrite ?H1, ?H2, H3, bind_Ok, bind_Raise;
    rewrite evaluate_tree_and, !evaluate_tree_leaf by reflexivity;
    discriminate.
Qed.

(** C4, as the code has it: every space is a token of its own and an AND
    operator.  One space between two terms is one AND; a second space right
    after it, a space before the first term, and a space after the last term
    are applied as AND with an operand missing, and [parse_query] raises
    [IndexError]. *)
Theorem every_space_is_an_and (a b rest : string) :
  is_term a = true -> is_term b = true ->
  tokenize (a +:+ "  " +:+ b) = [a; " "; " "; b] /\
  parse_query (a +:+ " " +:+ b) = Ok (BooleanNode " " (leaf a) (leaf b)) /\
  parse_query (a +:+ "  " +:+ rest) = Raise IndexError /\
  parse_query (" " +:+ a +:+ " " +:+ rest) = Raise IndexError /\
  parse_query (a +:+ " " +:+ b +:+ " ") = Raise IndexError.
Proof.
  intros Ha Hb. split; [now tokenize_query |].
  split; [now apply parse_and |].
  split; [now apply parse_double_space |].
  split; [now apply parse_leading_space | now apply parse_trailing_space].
Qed.

Lemma every_space_is_an_and_witness :
  (is_term "a" = true /\ is_term "b" = true) /\
  tokenize "a  b" = ["a"; " "; " "; "b"] /\
  parse_query "a b" = Ok (BooleanNode " " (leaf "a") (leaf "b")) /\
  parse_query "a  b" = Raise IndexError /\
  parse_query " a b " = Raise IndexError /\
  parse_query "a b " = Raise IndexError.
Proof.
  split; [split; reflexivity |].
  apply (every_space_is_an_and "a" "b" "b "); reflexivity.
Defined.

(** ** Terms *)

(** C5, refuted as stated: the run [x-y] is neither alphanumeric nor holds
    an underscore; the parser takes it for a binary operator, so the tree of
    [a(b(x-y))] has no Term leaf [x-y], the query [x-y] alone does not
    parse, and a node holding [x-y] is not looked up in the index. *)
Lemma run_not_always_a_term :
  In "x-y" (tokenize "a(b(x-y))") /\
  parse_query "a(b(x-y))" = Ok (BooleanNode "x-y" (leaf "a") (leaf "b")) /\
  has_leaf "x-y" (BooleanNode "x-y" (leaf "a") (leaf "b")) = false /\
  parse_query "x-y" = Raise IndexError /\
  evaluate_tree (leaf "x-y") index_a = Ok PyNone.
Proof.
  split; [vm_compute; tauto |].
  repeat split; vm_compute; reflexivity.
Qed.

Lemma is_run_no_separator (t : string) :
  is_run t = true -> all_chars (fun c => negb (is_separator c)) t = true.
Proof. unfold is_run. intros H. now apply andb_prop in H. Qed.

Lemma is_run_pending (t : string) : is_run t = true -> pending t = [t].
Proof.
  unfold is_run, pending. intros H. apply andb_prop in H as [-> _].
  reflexivity.
Qed.

Lemma is_run_not_separator_token (t : string) :
  is_run t = true ->
  t <> "!" /\ t <> " " /\ t <> "|" /\ t <> "(" /\ t <> ")".
Proof. intros H. repeat split; intros ->; discriminate. Qed.

Lemma precedence_of_run (t : string) :
  is_run t = true -> precedence_of t = Raise KeyError.
Proof.
  intros H. destruct (is_run_not_separator_token t H) as (H1 & H2 & H3 & _).
  unfold precedence_of, precedence.
  rewrite !lookup_insert_ne by congruence. now rewrite lookup_empty.
Qed.

Lemma tokens_from_one_run (t : string) :
  is_run t = true -> tokens_from t "" = [t].
Proof.
  intros H. rewrite <- (string_app_nil_r t) at 1.
  rewrite tokens_from_run by now apply is_run_no_separator.
  rewrite tokens_from_nil, string_app_nil_l. now apply is_run_pending.
Qed.

(** A run that is not an operand goes to the operator stack, or fails at the
    precedence dictionary; the operand stack is left as it is. *)
Lemma parse_token_run_operator (token : string) (stack : list node)
  (operators : list string) :
  is_run token = true -> is_operand token = false ->
  parse_token token (stack, operators) =
  match operators with
  | [] => Ok (stack, [token])
  | top :: _ =>
      if String.eqb top "(" then Ok (stack, token :: operators)
      else Raise KeyError
  end.
Proof.
  intros Hrun Hoperand.
  destruct (is_run_not_separator_token token Hrun) as (_ & _ & _ & H4 & H5).
  unfold parse_token. rewrite Hoperand.
  destruct (String.eqb_spec token "(") as [?|_]; [contradiction |].
  destruct (String.eqb_spec token ")") as [?|_]; [contradiction |].
  destruct operators as [|top operators]; [reflexivity |].
  cbn [reduce_loop]. destruct (String.eqb top "("); [reflexivity |].
  destruct (precedence_of top) as [ptop|e] eqn:Htop.
  - rewrite bind_Ok, (precedence_of_run token Hrun). reflexivity.
  - now rewrite (precedence_of_exn top e Htop).
Qed.

Lemma evaluate_tree_run_operator (token : string) (l r : node) (index : Index) :
  is_run token = true -> is_operand token = false ->
  evaluate_tree (BooleanNode token l r) index = Ok PyNone.
Proof.
  intros Hrun Hoperand.
  destruct (is_run_not_separator_token token Hrun) as (H1 & H2 & H3 & _).
  cbn [evaluate_tree]. rewrite Hoperand.
  destruct (String.eqb_spec token "!") as [?|_]; [contradiction |].
  destruct (String.eqb_spec token " ") as [?|_]; [contradiction |].
  destruct (String.eqb_spec token "|") as [?|_]; [contradiction |].
  reflexivity.
Qed.

Lemma parse_query_run_operator (token : string) :
  is_run token = true -> is_operand token = false ->
  parse_query token = Raise IndexError.
Proof.
  intros Hrun Hoperand. unfold parse_query.
  rewrite tokenize_tokens_from, (tokens_from_one_run token Hrun).
  unfold parse. rewrite parse_tokens_cons.
  rewrite (parse_token_run_operator token [] [] Hrun Hoperand).
  rewrite bind_Ok. cbn [parse_tokens]. rewrite bind_Ok.
  cbn [drain_loop]. unfold apply_to_stack.
  now destruct (String.eqb token "!").
Qed.

(** C5, as the code has it: the tokens of a query are its separator
    characters and its maximal runs of other characters, in order.  A run is
    treated as a term only when it is alphanumeric or holds an underscore:
    then, and for a run only then, the parser pushes a Term leaf holding
    exactly that string and evaluating a node with that value looks the
    string up in the index, and a query made of one such run parses to that
    leaf.  A run that is neither is taken for an operator: the parser leaves
    the operand stack as it is and pushes the run on the operator stack when
    that stack is empty or has [(] on top, and raises [KeyError] otherwise; a
    node with that value evaluates to [None], without a lookup; and a query
    made of that run alone raises [IndexError]. *)
Theorem operand_runs_are_terms (query token : string) (stack : list node)
  (operators : list string) (index : Index) (l r : node) :
  (Forall (fun t => is_separator_token t || is_run t = true) (tokenize query) /\
   concat_tokens (tokenize query) = query /\
   runs_separated (tokenize query) = true) /\
  (is_operand token = true ->
   parse_token token (stack, operators) = Ok (leaf token :: stack, operators) /\
   evaluate_tree (leaf token) index = Ok (PySet (Index_get index token ∅))) /\
  (is_term token = true ->
   tokenize token = [token] /\ parse_query token = Ok (leaf token)) /\
  (is_run token = true ->
   (parse_token token (stack, operators) =
      Ok (leaf token :: stack, operators) <-> is_operand token = true) /\
   (evaluate_tree (BooleanNode token l r) index =
      Ok (PySet (Index_get index token ∅)) <-> is_operand token = true)) /\
  (is_run token = true -> is_operand token = false ->
   parse_token token (stack, operators) =
     match operators with
     | [] => Ok (stack, [token])
     | top :: _ =>
         if String.eqb top "(" then Ok (stack, token :: operators)
         else Raise KeyError
     end /\
   evaluate_tree (BooleanNode token l r) index = Ok PyNone /\
   tokenize token = [token] /\
   parse_query token = Raise IndexError).
Proof.
  split; [| split; [| split; [| split]]].
  - rewrite tokenize_tokens_from. split; [now apply tokens_from_shape |].
    split; [apply tokens_from_concat | apply tokens_from_separated].
  - intros Htoken. split; [now apply parse_token_operand |].
    now apply evaluate_tree_term.
  - intros Htoken. split; [| now apply parse_term].
    rewrite tokenize_tokens_from. now apply tokens_from_term.
  - intros Hrun. destruct (is_operand token) eqn:Hoperand.
    + split; (split; [reflexivity | intros _]).
      * now apply parse_token_operand.
      * now apply evaluate_tree_term.
    + rewrite (parse_token_run_operator token stack operators Hrun Hoperand).
      rewrite (evaluate_tree_run_operator token l r index Hrun Hoperand).
      split; (split; [| discriminate]).
      * intros H. exfalso.
        assert (Hlen : forall st : result (list node * list string),
                  st = Ok (leaf token :: stack, operators) ->
                  match st with
                  | Ok (s, _) => length s = S (length stack)
                  | Raise _ => False
                  end) by (now intros st ->).
        apply Hlen in H.
        destruct operators as [|top operators]; [simpl in H; lia |].
        destruct (String.eqb top "("); [simpl in H; lia | exact H].
      * discriminate.
  - intros Hrun Hoperand.
    split; [now apply parse_token_run_operator |].
    split; [now apply evaluate_tree_run_operator |].
    split; [| now apply parse_query_run_operator].
    rewrite tokenize_tokens_from. now apply tokens_from_one_run.
Qed.

Lemma operand_runs_are_terms_witness :
  ((is_operand "foo_bar" = true /\ is_term "foo_bar" = true /\
    is_run "foo_bar" = true) /\
   parse_token "foo_bar" ([], ["("]) = Ok ([leaf "foo_bar"], ["("]) /\
   evaluate_tree (leaf "foo_bar") index_a =
     Ok (PySet (Index_get index_a "foo_bar" ∅)) /\
   parse_query "foo_bar" = Ok (leaf "foo_bar")) /\
  ((is_run "x-y" = true /\ is_operand "x-y" = false) /\
   parse_token "x-y" ([leaf "a"], ["("]) = Ok ([leaf "a"], ["x-y"; "("]) /\
   parse_token "x-y" ([leaf "a"], [" "]) = Raise KeyError /\
   evaluate_tree (leaf "x-y") index_a = Ok PyNone /\
   parse_query "x-y" = Raise IndexError).
Proof.
  split.
  - split; [repeat split; reflexivity |].
    destruct (operand_runs_are_terms "x foo_bar" "foo_bar" [] ["("] index_a
                NoneNode NoneNode) as (_ & Hoperand & Hterm & _).
    destruct (Hoperand eq_refl) as [Hpush Heval].
    destruct (Hterm eq_refl) as [_ Hparse].
    split; [exact Hpush |]. split; [exact Heval | exact Hparse].
  - split; [split; reflexivity |].
    destruct (operand_runs_are_terms "x-y" "x-y" [leaf "a"] ["("] index_a
                NoneNode NoneNode) as (_ & _ & _ & _ & Hrun1).
    destruct (operand_runs_are_terms "x-y" "x-y" [leaf "a"] [" "] index_a
                NoneNode NoneNode) as (_ & _ & _ & _ & Hrun2).
    destruct (Hrun1 eq_refl eq_refl) as (Hpush & Heval & _ & Hparse).
    destruct (Hrun2 eq_refl eq_refl) as (Hkey & _).
    split; [exact Hpush |]. split; [exact Hkey |].
    split; [exact Heval | exact Hparse].
Defined.

(** ** Malformed queries *)

(** C6, refuted as stated: the parentheses of [a(b] do not match, and the
    query is turned into a tree, not rejected. *)
Lemma malformed_query_accepted :
  parens_balanced "a(b" = false /\
  QueryTree_init 7 "a(b" =
    Ok {| qid := 7; tree := BooleanNode "(" (leaf "a") (leaf "b") |}.
Proof. split; vm_compute; reflexivity. Qed.

(** C6, as the code has it: there is no syntax error of the parser's own
    and no query id in a failure.  When [parse_query] fails it fails with the
    [IndexError] of a list or the [KeyError] of the precedence dictionary,
    and [QueryTree(qid, query)] fails with that same exception; a trailing
    operator ([a|]), a missing operand ([|a]), an unmatched closing
    parenthesis ([a)]) and the empty query fail with [IndexError]. *)
Theorem parser_failure_is_builtin (q : nat) (query : string) (e : exn) :
  (parse_query query = Raise e ->
   (e = IndexError \/ e = KeyError) /\ QueryTree_init q query = Raise e) /\
  parse_query "a|" = Raise IndexError /\
  parse_query "|a" = Raise IndexError /\
  parse_query "a)" = Raise IndexError /\
  parse_query "" = Raise IndexError /\
  parse_query "a b-c" = Raise KeyError.
Proof.
  split.
  - intros H. split; [now apply (parse_exn (tokenize query)) |].
    unfold QueryTree_init. now rewrite H.
  - repeat split; vm_compute; reflexivity.
Qed.

Lemma parser_failure_is_builtin_witness :
  parse_query "a|" = Raise IndexError /\
  (IndexError = IndexError \/ IndexError = KeyError) /\
  QueryTree_init 7 "a|" = Raise IndexError.
Proof.
  assert (H : parse_query "a|" = Raise IndexError) by (vm_compute; reflexivity).
  split; [exact H |].
  apply (parser_failure_is_builtin 7 "a|" IndexError). exact H.
Defined.

(** ** De Morgan *)

Lemma evaluate_not_paren_and (a b : string) (index : Index) :
  is_term a = true -> is_term b = true ->
  evaluate ("!(" +:+ a +:+ " " +:+ b +:+ ")") index =
  Ok (PySet (all_docs index ∖ (Index_get index a ∅ ∩ Index_get index b ∅))).
Proof.
  intros Ha Hb. unfold evaluate.
  rewrite parse_not_paren_and by assumption. rewrite bind_Ok.
  now run_evaluator.
Qed.

(** C7, refuted as stated: with spaces around [|] the right-hand query of
    the first law does not parse. *)
Lemma spaced_or_does_not_parse :
  evaluate "!(a b)" index_abc <> evaluate "!a | !b" index_abc.
Proof.
  assert (Hl : evaluate "!(a b)" index_abc =
               Ok (PySet (all_docs index_abc
                          ∖ (Index_get index_abc "a" ∅
                             ∩ Index_get index_abc "b" ∅))))
    by (apply (evaluate_not_paren_and "a" "b"); reflexivity).
  assert (Hr : parse_query "!a | !b" = Raise IndexError)
    by (apply (parse_not_spaced_or "a" " !b"); reflexivity).
  rewrite Hl. unfold evaluate. rewrite Hr, bind_Raise. discriminate.
Qed.

(** C7, as the code has it: for all terms a, b and every index, [!(a b)]
    evaluates like [!a|!b], written without spaces around [|], and [!(a|b)]
    evaluates like [!a !b]; each side is a set. *)
Theorem de_morgan_laws (a b : string) (index : Index) :
  is_term a = true -> is_term b = true ->
  (evaluate ("!(" +:+ a +:+ " " +:+ b +:+ ")") index =
     evaluate ("!" +:+ a +:+ "|!" +:+ b) index /\
   evaluate ("!(" +:+ a +:+ " " +:+ b +:+ ")") index =
     Ok (PySet (all_docs index
                ∖ (Index_get index a ∅ ∩ Index_get index b ∅)))) /\
  (evaluate ("!(" +:+ a +:+ "|" +:+ b +:+ ")") index =
     evaluate ("!" +:+ a +:+ " !" +:+ b) index /\
   evaluate ("!(" +:+ a +:+ "|" +:+ b +:+ ")") index =
     Ok (PySet (all_docs index
                ∖ (Index_get index a ∅ ∪ Index_get index b ∅)))).
Proof.
  intros Ha Hb. split.
  - rewrite evaluate_not_paren_and by assumption. split; [| reflexivity].
    unfold evaluate. rewrite parse_not_or_not by assumption. rewrite bind_Ok.
    run_evaluator. now rewrite difference_intersection.
  - unfold evaluate.
    rewrite parse_not_paren_or, parse_not_and_not by assumption.
    rewrite !bind_Ok. run_evaluator. rewrite difference_union.
    split; reflexivity.
Qed.

Lemma de_morgan_laws_witness :
  (is_term "a" = true /\ is_term "b" = true) /\
  evaluate "!(a b)" index_abc = evaluate "!a|!b" index_abc /\
  evaluate "!(a|b)" index_abc = evaluate "!a !b" index_abc.
Proof.
  split; [split; reflexivity |].
  destruct (de_morgan_laws "a" "b" index_abc eq_refl eq_refl)
    as [[Hand _] [Hor _]].
  split; [exact Hand | exact Hor].
Defined.

(** ** An unmatched opening parenthesis *)

(** C10, refuted as stated: [a (b] is not accepted; after the leftover [(]
    has taken both operands, the AND of the space finds one operand only. *)
Lemma spaced_unmatched_paren_raises :
  parse_query "a (b" = Raise IndexError /\
  ~ (exists root, parse_query "a (b" = Ok root).
Proof.
  assert (H : parse_query "a (b" = Raise IndexError) by (vm_compute; reflexivity).
  split; [exact H |]. intros [root Hroot]. congruence.
Qed.

(** C10, as the code has it: the query [a(b], whose [(] is unmatched, is
    accepted; [parse_query] returns a root whose value is [(], with [a] and
    [b] for children, and [evaluate_tree] returns [None] on every node whose
    value is [(], on every index. *)
Theorem unmatched_paren_accepted :
  parens_balanced "a(b" = false /\
  parse_query "a(b" = Ok (BooleanNode "(" (leaf "a") (leaf "b")) /\
  (forall (l r : node) (index : Index),
     evaluate_tree (BooleanNode "(" l r) index = Ok PyNone) /\
  (forall index : Index, evaluate "a(b" index = Ok PyNone).
Proof.
  assert (H : parse_query "a(b" = Ok (BooleanNode "(" (leaf "a") (leaf "b")))
    by (vm_compute; reflexivity).
  split; [reflexivity |]. split; [exact H |].
  split; [reflexivity |].
  intros index. unfold evaluate. now rewrite H.
Qed.

(** * Further properties of the parser and the evaluator *)

(** ** The tokenizer inverts concatenation *)

Lemma is_term_run (a : string) : is_term a = true -> is_run a = true.
Proof.
  intros Ha. unfold is_run.
  rewrite (is_operand_truthy a (is_term_operand a Ha)).
  now rewrite (is_term_no_separator a Ha).
Qed.

Lemma is_separator_token_inv (t : string) :
  is_separator_token t = true ->
  exists c, t = String c "" /\ is_separator c = true.
Proof.
  destruct t as [|c [|d t]]; simpl; try discriminate.
  intros Hc. now exists c.
Qed.

Lemma tokens_from_concat_tokens (tokens : list string) :
  Forall (fun t => is_separator_token t || is_run t = true) tokens ->
  runs_separated tokens = true ->
  tokens_from (concat_tokens tokens) "" = tokens.
Proof.
  induction tokens as [|t tokens IH]; intros Hshape Hsep; [reflexivity |].
  apply Forall_cons in Hshape as [Ht Hshape].
  assert (Hrest : runs_separated tokens = true).
  { destruct tokens as [|t2 tokens]; [reflexivity |].
    cbn [runs_separated] in Hsep. now apply andb_prop in Hsep. }
  specialize (IH Hshape Hrest).
  destruct (is_separator_token t) eqn:Hst.
  - apply is_separator_token_inv in Hst as (c & -> & Hc).
    cbn [concat_tokens]. rewrite string_app_cons, string_app_nil_l.
    rewrite tokens_from_sep by exact Hc. now rewrite IH.
  - simpl in Ht. cbn [concat_tokens].
    rewrite tokens_from_run by now apply is_run_no_separator.
    rewrite string_app_nil_l.
    destruct tokens as [|t2 tokens].
    + cbn [concat_tokens]. rewrite tokens_from_nil. now apply is_run_pending.
    + cbn [runs_separated] in Hsep. apply andb_prop in Hsep as [Hsep _].
      rewrite Ht in Hsep. cbn [andb] in Hsep. apply negb_true_iff in Hsep.
      apply Forall_cons in Hshape as [Ht2 _]. rewrite Hsep, orb_false_r in Ht2.
      apply is_separator_token_inv in Ht2 as (c & -> & Hc).
      cbn [concat_tokens] in *.
      rewrite string_app_cons, string_app_nil_l in *.
      rewrite tokens_from_separator by exact Hc.
      rewrite tokens_from_sep in IH by exact Hc.
      rewrite (is_run_pending t Ht). cbn [app]. now rewrite IH.
Qed.

(** X1: the tokenizer is inverse to concatenation.  Concatenating the tokens
    of a query gives back the query, and a list of tokens, each a separator
    character or a non-empty run without separators, no two runs next to
    each other, is the token list of its concatenation. *)
Theorem tokenize_concat_inverse (query : string) (tokens : list string) :
  concat_tokens (tokenize query) = query /\
  (Forall (fun t => is_separator_token t || is_run t = true) tokens ->
   runs_separated tokens = true ->
   tokenize (concat_tokens tokens) = tokens).
Proof.
  rewrite !tokenize_tokens_from. split; [apply tokens_from_concat |].
  apply tokens_from_concat_tokens.
Qed.

Lemma tokenize_concat_inverse_witness :
  tokenize (concat_tokens ["!"; "("; "cat"; " "; "dog_1"; ")"; "|"; "x-y"]) =
  ["!"; "("; "cat"; " "; "dog_1"; ")"; "|"; "x-y"].
Proof.
  apply (tokenize_concat_inverse ""
           ["!"; "("; "cat"; " "; "dog_1"; ")"; "|"; "x-y"]).
  - repeat constructor.
  - reflexivity.
Defined.

(** ** The parser on expressions written with precedences *)

Lemma parse_tokens_app (tokens1 tokens2 : list string) :
  forall st,
    parse_tokens (tokens1 ++ tokens2) st =
    (st' ← parse_tokens tokens1 st; parse_tokens tokens2 st').
Proof.
  induction tokens1 as [|token tokens1 IH]; intros st; [reflexivity |].
  simpl. destruct (parse_token token st) as [st'|e]; simpl;
    [apply IH | reflexivity].
Qed.

Lemma drain_loop_app (operators1 operators2 : list string) :
  forall stack,
    drain_loop (operators1 ++ operators2) stack =
    (stack' ← drain_loop operators1 stack; drain_loop operators2 stack').
Proof.
  induction operators1 as [|top operators1 IH]; intros stack; [reflexivity |].
  simpl. destruct (apply_to_stack top stack) as [stack'|e]; simpl;
    [apply IH | reflexivity].
Qed.

Lemma pops_at_le (q q' : nat) (o : string) :
  q <= q' -> pops_at q' o -> pops_at q o.
Proof.
  unfold pops_at.
  intros Hq [[-> H]|[[-> H]|[-> H]]]; [left | right; left | right; right];
    (split; [reflexivity | lia]).
Qed.

Lemma holds_at_le (q q' : nat) (operators : list string) :
  q <= q' -> holds_at q operators -> holds_at q' operators.
Proof.
  destruct operators as [|top operators]; [trivial |]. simpl.
  intros Hq [H|[[-> H]|[[-> H]|[-> H]]]];
    [now left | right; left | right; right; left | right; right; right];
    (split; [reflexivity | lia]).
Qed.

Lemma precedence_of_not : precedence_of "!" = Ok 3.
Proof. vm_compute. reflexivity. Qed.

Lemma precedence_of_and : precedence_of " " = Ok 2.
Proof. vm_compute. reflexivity. Qed.

Lemma precedence_of_or : precedence_of "|" = Ok 1.
Proof. vm_compute. reflexivity. Qed.

(** An arriving operator of precedence [q] stops at a stack that holds. *)
Lemma reduce_loop_holds (token : string) (q : nat) (operators : list string)
  (stack : list node) :
  precedence_of token = Ok q -> holds_at q operators ->
  reduce_loop token operators stack = Ok (stack, operators).
Proof.
  intros Htoken. destruct operators as [|top operators]; [reflexivity |].
  simpl. intros [->|[[-> H]|[[-> H]|[-> H]]]]; [reflexivity | | |].
  - cbn [String.eqb Ascii.eqb Bool.eqb]. rewrite precedence_of_not, Htoken.
    cbn [mbind result_bind]. now destruct (Nat.leb_spec q 3); [lia |].
  - cbn [String.eqb Ascii.eqb Bool.eqb]. rewrite precedence_of_and, Htoken.
    cbn [mbind result_bind]. now destruct (Nat.leb_spec q 2); [lia |].
  - cbn [String.eqb Ascii.eqb Bool.eqb]. rewrite precedence_of_or, Htoken.
    cbn [mbind result_bind]. now destruct (Nat.leb_spec q 1); [lia |].
Qed.

(** An arriving operator of precedence [q] applies the pending operators it
    pops, in stack order, and stops at a stack that holds. *)
Lemma reduce_loop_pops (token : string) (q : nat) (pending_ops : list string) :
  forall (operators : list string) (stack stack1 : list node),
    precedence_of token = Ok q ->
    Forall (pops_at q) pending_ops ->
    drain_loop pending_ops stack = Ok stack1 ->
    holds_at q operators ->
    reduce_loop token (pending_ops ++ operators) stack = Ok (stack1, operators).
Proof.
  induction pending_ops as [|o pending_ops IH];
    intros operators stack stack1 Htoken Hpops Hdrain Hholds.
  - simpl in Hdrain. injection Hdrain as <-.
    now apply reduce_loop_holds with q.
  - apply Forall_cons in Hpops as [Ho Hpops].
    simpl in Hdrain.
    destruct (apply_to_stack o stack) as [stack'|e] eqn:Happly;
      [| discriminate].
    simpl in Hdrain.
    assert (Hstep : reduce_loop token ((o :: pending_ops) ++ operators) stack =
                    reduce_loop token (pending_ops ++ operators) stack').
    { destruct Ho as [[-> H]|[[-> H]|[-> H]]];
        cbn [app reduce_loop String.eqb Ascii.eqb Bool.eqb];
        rewrite ?precedence_of_not, ?precedence_of_and, ?precedence_of_or,
          Htoken;
        cbn [mbind result_bind];
        [destruct (Nat.leb_spec q 3) | destruct (Nat.leb_spec q 2)
        | destruct (Nat.leb_spec q 1)]; try lia;
        now rewrite Happly. }
    rewrite Hstep. now apply IH.
Qed.

(** A closing parenthesis applies the pending operators down to the
    opening one. *)
Lemma close_loop_pops (q : nat) (pending_ops : list string) :
  forall (operators : list string) (stack stack1 : list node),
    Forall (pops_at q) pending_ops ->
    drain_loop pending_ops stack = Ok stack1 ->
    close_loop (pending_ops ++ "(" :: operators) stack =
    Ok (stack1, "(" :: operators).
Proof.
  induction pending_ops as [|o pending_ops IH];
    intros operators stack stack1 Hpops Hdrain.
  - simpl in Hdrain. now injection Hdrain as <-.
  - apply Forall_cons in Hpops as [Ho Hpops].
    simpl in Hdrain.
    destruct (apply_to_stack o stack) as [stack'|e] eqn:Happly;
      [| discriminate].
    simpl in Hdrain.
    assert (Hstep : close_loop ((o :: pending_ops) ++ "(" :: operators) stack =
                    close_loop (pending_ops ++ "(" :: operators) stack').
    { destruct Ho as [[-> H]|[[-> H]|[-> H]]];
        cbn [app close_loop String.eqb Ascii.eqb Bool.eqb];
        now rewrite Happly. }
    rewrite Hstep. now apply IH.
Qed.

Lemma parse_token_not (stack : list node) (operators : list string) :
  parse_token "!" (stack, operators) =
  ('(stack', operators') ← reduce_loop "!" operators stack;
   Ok (stack', "!" :: operators')).
Proof. reflexivity. Qed.

Lemma parse_token_and (stack : list node) (operators : list string) :
  parse_token " " (stack, operators) =
  ('(stack', operators') ← reduce_loop " " operators stack;
   Ok (stack', " " :: operators')).
Proof. reflexivity. Qed.

Lemma parse_token_or (stack : list node) (operators : list string) :
  parse_token "|" (stack, operators) =
  ('(stack', operators') ← reduce_loop "|" operators stack;
   Ok (stack', "|" :: operators')).
Proof. reflexivity. Qed.

Lemma parse_token_open (stack : list node) (operators : list string) :
  parse_token "(" (stack, operators) = Ok (stack, "(" :: operators).
Proof. reflexivity. Qed.

Lemma parse_token_close (stack : list node) (operators : list string) :
  parse_token ")" (stack, operators) =
  ('(stack', operators') ← close_loop operators stack;
   match operators' with
   | _ :: operators'' => Ok (stack', operators'')
   | [] => Raise IndexError
   end).
Proof. reflexivity. Qed.

Lemma reads_paren (e : expr) (q q' : nat) (tokens : list string)
  (stack : list node) (operators : list string) :
  reads e q' tokens stack ("(" :: operators) ->
  reads e q (paren true tokens) stack operators.
Proof.
  intros (pending_ops & stack' & Hparse & Hpops & Hdrain).
  exists [], (tree_of e :: stack). split; [| split; [constructor | reflexivity]].
  unfold paren. rewrite parse_tokens_cons, parse_token_open, bind_Ok.
  rewrite parse_tokens_app, Hparse, bind_Ok.
  rewrite parse_tokens_cons, parse_token_close.
  rewrite (close_loop_pops q' pending_ops operators stack' _ Hpops Hdrain).
  reflexivity.
Qed.

Lemma reads_le (e : expr) (q q' : nat) (tokens : list string)
  (stack : list node) (operators : list string) :
  q <= q' -> reads e q' tokens stack operators ->
  reads e q tokens stack operators.
Proof.
  intros Hq (pending_ops & stack' & Hparse & Hpops & Hdrain).
  exists pending_ops, stack'. repeat split; try assumption.
  eapply Forall_impl; [exact Hpops |]. intros o. now apply pops_at_le.
Qed.

Lemma reads_not (e1 : expr) (stack : list node) (operators : list string) :
  (forall stack' operators', holds_at 4 operators' ->
     reads e1 4 (print_tokens 4 e1) stack' operators') ->
  holds_at 3 operators ->
  reads (ENot e1) 3 ("!" :: print_tokens 4 e1) stack operators.
Proof.
  intros IH Hholds.
  destruct (IH stack ("!" :: operators)) as (p1 & s1 & Hparse & Hpops & Hdrain).
  { simpl. right. left. split; [reflexivity | lia]. }
  exists (p1 ++ ["!"]), s1. split; [| split].
  - rewrite parse_tokens_cons, parse_token_not.
    rewrite (reduce_loop_holds "!" 3) by (exact precedence_of_not || assumption).
    rewrite !bind_Ok. rewrite Hparse. now rewrite <- app_assoc.
  - apply Forall_app. split.
    + eapply Forall_impl; [exact Hpops |]. intros o. apply pops_at_le. lia.
    + constructor; [| constructor]. left. split; [reflexivity | lia].
  - rewrite drain_loop_app, Hdrain. reflexivity.
Qed.

Lemma reads_binary (op : string) (q : nat) (e e1 e2 : expr)
  (stack : list node) (operators : list string) :
  precedence_of op = Ok q -> pops_at q op -> op <> "!" ->
  (forall stack' operators',
     parse_token op (stack', operators') =
     ('(stack'', operators'') ← reduce_loop op operators' stack';
      Ok (stack'', op :: operators''))) ->
  tree_of e = BooleanNode op (tree_of e1) (tree_of e2) ->
  (forall stack' operators', holds_at q operators' ->
     reads e1 q (print_tokens q e1) stack' operators') ->
  (forall stack' operators', holds_at (S q) operators' ->
     reads e2 (S q) (print_tokens (S q) e2) stack' operators') ->
  holds_at q operators ->
  reads e q (print_tokens q e1 ++ op :: print_tokens (S q) e2) stack operators.
Proof.
  intros Hprec Hop Hne Htoken Htree IH1 IH2 Hholds.
  destruct (IH1 stack operators Hholds) as (p1 & s1 & Hparse1 & Hpops1 & Hdrain1).
  destruct (IH2 (tree_of e1 :: stack) (op :: operators))
    as (p2 & s2 & Hparse2 & Hpops2 & Hdrain2).
  { simpl. destruct Hop as [[-> H]|[[-> H]|[-> H]]].
    - now contradict Hne.
    - right. right. left. split; [reflexivity |].
      rewrite precedence_of_and in Hprec. injection Hprec as <-. lia.
    - right. right. right. split; [reflexivity |].
      rewrite precedence_of_or in Hprec. injection Hprec as <-. lia. }
  exists (p2 ++ [op]), s2. split; [| split].
  - rewrite parse_tokens_app, Hparse1, bind_Ok.
    rewrite parse_tokens_cons, Htoken.
    rewrite (reduce_loop_pops op q p1 operators s1 _ Hprec Hpops1 Hdrain1 Hholds).
    rewrite !bind_Ok. rewrite Hparse2. now rewrite <- app_assoc.
  - apply Forall_app. split.
    + eapply Forall_impl; [exact Hpops2 |]. intros o. apply pops_at_le. lia.
    + constructor; [exact Hop | constructor].
  - rewrite drain_loop_app, Hdrain2, bind_Ok, Htree.
    cbn [drain_loop]. unfold apply_to_stack.
    destruct (String.eqb_spec op "!") as [->|_]; [now contradict Hne |].
    reflexivity.
Qed.

Lemma reads_print (e : expr) :
  terms_ok e = true ->
  forall (q : nat) (stack : list node) (operators : list string),
    holds_at q operators ->
    reads e q (print_tokens q e) stack operators.
Proof.
  induction e as [a|e1 IH1|e1 IH1 e2 IH2|e1 IH1 e2 IH2]; simpl; intros Hterms.
  - intros q stack operators _. exists [], (leaf a :: stack).
    split; [| split; [constructor | reflexivity]].
    rewrite parse_tokens_cons, parse_token_term by exact Hterms. reflexivity.
  - specialize (IH1 Hterms). intros q stack operators Hholds.
    destruct (Nat.ltb_spec 3 q) as [Hq|Hq].
    + apply reads_paren with 3. apply reads_not; [apply IH1 | now left].
    + apply reads_le with 3; [exact Hq |].
      apply reads_not; [apply IH1 | now apply holds_at_le with q].
  - apply andb_prop in Hterms as [H1 H2].
    specialize (IH1 H1). specialize (IH2 H2). intros q stack operators Hholds.
    assert (Hbody : forall operators', holds_at 2 operators' ->
              reads (EAnd e1 e2) 2
                (print_tokens 2 e1 ++ " " :: print_tokens 3 e2) stack operators').
    { intros operators' H. apply (reads_binary " " 2 (EAnd e1 e2) e1 e2);
        try reflexivity; try (apply IH1 || apply IH2 || assumption);
        [right; left; split; [reflexivity | lia] | discriminate]. }
    destruct (Nat.ltb_spec 2 q) as [Hq|Hq].
    + apply reads_paren with 2. apply Hbody. now left.
    + apply reads_le with 2; [exact Hq |].
      apply Hbody. now apply holds_at_le with q.
  - apply andb_prop in Hterms as [H1 H2].
    specialize (IH1 H1). specialize (IH2 H2). intros q stack operators Hholds.
    assert (Hbody : forall operators', holds_at 1 operators' ->
              reads (EOr e1 e2) 1
                (print_tokens 1 e1 ++ "|" :: print_tokens 2 e2) stack operators').
    { intros operators' H. apply (reads_binary "|" 1 (EOr e1 e2) e1 e2);
        try reflexivity; try (apply IH1 || apply IH2 || assumption);
        [right; right; split; [reflexivity | lia] | discriminate]. }
    destruct (Nat.ltb_spec 1 q) as [Hq|Hq].
    + apply reads_paren with 1. apply Hbody. now left.
    + apply reads_le with 1; [exact Hq |].
      apply Hbody. now apply holds_at_le with q.
Qed.

Lemma runs_separated_app_separator (c : ascii) (tokens1 tokens2 : list string) :
  is_separator c = true ->
  runs_separated (tokens1 ++ String c "" :: tokens2) =
  runs_separated tokens1 && runs_separated tokens2.
Proof.
  intros Hc. induction tokens1 as [|t1 [|t2 tokens1] IH].
  - now apply runs_separated_separator.
  - cbn [app]. rewrite runs_separated_before_separator by exact Hc.
    now apply runs_separated_separator.
  - change (runs_separated ((t1 :: t2 :: tokens1) ++ String c "" :: tokens2))
      with (negb (is_run t1 && is_run t2) &&
            runs_separated ((t2 :: tokens1) ++ String c "" :: tokens2)).
    rewrite IH. cbn [runs_separated]. now rewrite andb_assoc.
Qed.

Lemma runs_separated_paren (b : bool) (tokens : list string) :
  runs_separated tokens = true -> runs_separated (paren b tokens) = true.
Proof.
  intros H. destruct b; [| exact H]. unfold paren.
  rewrite runs_separated_separator by reflexivity.
  rewrite runs_separated_app_separator by reflexivity. now rewrite H.
Qed.

Lemma shape_paren (b : bool) (tokens : list string) :
  Forall (fun t => is_separator_token t || is_run t = true) tokens ->
  Forall (fun t => is_separator_token t || is_run t = true) (paren b tokens).
Proof.
  intros H. destruct b; [| exact H]. unfold paren.
  constructor; [reflexivity |]. apply Forall_app. split; [exact H |].
  now repeat constructor.
Qed.

Lemma print_tokens_shape (e : expr) :
  terms_ok e = true ->
  forall q,
    Forall (fun t => is_separator_token t || is_run t = true)
           (print_tokens q e) /\
    runs_separated (print_tokens q e) = true.
Proof.
  induction e as [a|e1 IH1|e1 IH1 e2 IH2|e1 IH1 e2 IH2]; simpl; intros Hterms q.
  - split; [| reflexivity]. constructor; [| constructor].
    rewrite (is_term_run a Hterms). apply orb_true_r.
  - destruct (IH1 Hterms 4) as [Hs Hr]. split.
    + apply shape_paren. now constructor.
    + apply runs_separated_paren.
      now rewrite (runs_separated_separator "!") by reflexivity.
  - apply andb_prop in Hterms as [H1 H2].
    destruct (IH1 H1 2) as [Hs1 Hr1], (IH2 H2 3) as [Hs2 Hr2]. split.
    + apply shape_paren, Forall_app. split; [exact Hs1 | now constructor].
    + apply runs_separated_paren.
      rewrite runs_separated_app_separator by reflexivity.
      now rewrite Hr1, Hr2.
  - apply andb_prop in Hterms as [H1 H2].
    destruct (IH1 H1 1) as [Hs1 Hr1], (IH2 H2 2) as [Hs2 Hr2]. split.
    + apply shape_paren, Forall_app. split; [exact Hs1 | now constructor].
    + apply runs_separated_paren.
      rewrite runs_separated_app_separator by reflexivity.
      now rewrite Hr1, Hr2.
Qed.

Lemma tokenize_print (e : expr) :
  terms_ok e = true -> tokenize (print e) = print_tokens 0 e.
Proof.
  intros Hterms. destruct (print_tokens_shape e Hterms 0) as [Hs Hr].
  unfold print. rewrite tokenize_tokens_from.
  now apply tokens_from_concat_tokens.
Qed.

Lemma parse_print_tokens (e : expr) :
  terms_ok e = true -> parse (print_tokens 0 e) = Ok (tree_of e).
Proof.
  intros Hterms.
  destruct (reads_print e Hterms 0 [] [] I)
    as (pending_ops & stack' & Hparse & _ & Hdrain).
  unfold parse. rewrite Hparse, bind_Ok, app_nil_r, Hdrain. reflexivity.
Qed.

Lemma evaluate_tree_of (e : expr) (index : Index) :
  terms_ok e = true ->
  evaluate_tree (tree_of e) index = Ok (PySet (denote index e)).
Proof.
  induction e as [a|e1 IH1|e1 IH1 e2 IH2|e1 IH1 e2 IH2]; simpl tree_of;
    simpl terms_ok; intros Hterms.
  - now apply evaluate_tree_leaf.
  - rewrite evaluate_tree_not, IH1 by exact Hterms. reflexivity.
  - apply andb_prop in Hterms as [H1 H2].
    rewrite evaluate_tree_and, IH1, IH2 by assumption. reflexivity.
  - apply andb_prop in Hterms as [H1 H2].
    rewrite evaluate_tree_or, IH1, IH2 by assumption. reflexivity.
Qed.

(** X2: the parser is correct on the boolean expressions.  For every
    expression over terms, written as a query with the fewest parentheses
    the precedences allow, [parse_query] returns the tree of the expression,
    and the query evaluates, on every index, to the set the expression
    denotes. *)
Theorem parse_query_print (e : expr) (index : Index) :
  terms_ok e = true ->
  parse_query (print e) = Ok (tree_of e) /\
  evaluate (print e) index = Ok (PySet (denote index e)).
Proof.
  intros Hterms.
  assert (Hparse : parse_query (print e) = Ok (tree_of e)).
  { unfold parse_query. rewrite tokenize_print by exact Hterms.
    now apply parse_print_tokens. }
  split; [exact Hparse |].
  unfold evaluate. rewrite Hparse, bind_Ok. now apply evaluate_tree_of.
Qed.

Lemma parse_query_print_witness :
  terms_ok (EAnd (ENot (ENot (ETerm "a"))) (EOr (ETerm "b") (ETerm "c"))) = true /\
  print (EAnd (ENot (ENot (ETerm "a"))) (EOr (ETerm "b") (ETerm "c"))) =
    "!(!a) (b|c)" /\
  parse_query "!(!a) (b|c)" =
    Ok (BooleanNode " "
          (BooleanNode "!" (BooleanNode "!" (leaf "a") NoneNode) NoneNode)
          (BooleanNode "|" (leaf "b") (leaf "c"))).
Proof.
  split; [reflexivity |]. split; [reflexivity |].
  apply (parse_query_print
           (EAnd (ENot (ENot (ETerm "a"))) (EOr (ETerm "b") (ETerm "c")))
           index_abc).
  reflexivity.
Defined.

(** ** Operands without an operator between them *)

Lemma concat_tokens_app (tokens1 tokens2 : list string) :
  concat_tokens (tokens1 ++ tokens2) =
  concat_tokens tokens1 +:+ concat_tokens tokens2.
Proof.
  induction tokens1 as [|t tokens1 IH]; [reflexivity |].
  cbn [app concat_tokens]. now rewrite IH, string_app_assoc.
Qed.

Lemma parse_paren_print_tokens (e : expr) (stack : list node)
  (operators : list string) :
  terms_ok e = true ->
  parse_tokens (paren true (print_tokens 0 e)) (stack, operators) =
  Ok (tree_of e :: stack, operators).
Proof.
  intros Hterms.
  unfold paren.
  rewrite parse_tokens_cons, parse_token_open, bind_Ok, parse_tokens_app.
  destruct (reads_print e Hterms 0 stack ("(" :: operators))
    as (p & s & Hp & Hpops & Hd); [now left |].
  rewrite Hp, bind_Ok, parse_tokens_cons, parse_token_close.
  rewrite (close_loop_pops 0 p operators s _ Hpops Hd). reflexivity.
Qed.

(** X3: an operand that no operator connects is dropped without an error.
    For a term [a] and an expression [e] over terms, the query [a(e)] parses
    to the leaf [a] alone and the query [(e)a] parses to the tree of [e]
    alone: [parse] returns the bottom of the operand stack and ignores what
    lies above it. *)
Theorem unconnected_operand_dropped (a : string) (e : expr) (index : Index) :
  is_term a = true -> terms_ok e = true ->
  (parse_query (a +:+ "(" +:+ print e +:+ ")") = Ok (leaf a) /\
   evaluate (a +:+ "(" +:+ print e +:+ ")") index =
     Ok (PySet (Index_get index a ∅))) /\
  (parse_query ("(" +:+ print e +:+ ")" +:+ a) = Ok (tree_of e) /\
   evaluate ("(" +:+ print e +:+ ")" +:+ a) index =
     Ok (PySet (denote index e))).
Proof.
  intros Ha Hterms.
  destruct (print_tokens_shape e Hterms 0) as [Hs Hr].
  assert (Hshape_a : is_separator_token a || is_run a = true).
  { rewrite (is_term_run a Ha). apply orb_true_r. }
  assert (H1 : parse_query (a +:+ "(" +:+ print e +:+ ")") = Ok (leaf a)).
  { replace (a +:+ "(" +:+ print e +:+ ")")
      with (concat_tokens (a :: paren true (print_tokens 0 e))).
    2:{ unfold paren, print. cbn [concat_tokens].
        rewrite concat_tokens_app. cbn [concat_tokens].
        now rewrite ?string_app_cons, ?string_app_nil_l. }
    unfold parse_query. rewrite tokenize_tokens_from.
    rewrite tokens_from_concat_tokens.
    - unfold parse.
      rewrite parse_tokens_cons, parse_token_term, bind_Ok by exact Ha.
      rewrite parse_paren_print_tokens by exact Hterms. reflexivity.
    - constructor; [exact Hshape_a | now apply shape_paren].
    - change (a :: paren true (print_tokens 0 e))
        with ([a] ++ String "(" "" :: print_tokens 0 e ++ [")"]).
      rewrite runs_separated_app_separator by reflexivity.
      rewrite runs_separated_app_separator by reflexivity.
      now rewrite Hr. }
  assert (H2 : parse_query ("(" +:+ print e +:+ ")" +:+ a) = Ok (tree_of e)).
  { replace ("(" +:+ print e +:+ ")" +:+ a)
      with (concat_tokens (paren true (print_tokens 0 e) ++ [a])).
    2:{ unfold paren, print. rewrite concat_tokens_app. cbn [concat_tokens].
        rewrite concat_tokens_app. cbn [concat_tokens].
        rewrite ?string_app_cons, ?string_app_nil_l, ?string_app_nil_r.
        now rewrite string_app_assoc, ?string_app_cons, ?string_app_nil_l. }
    unfold parse_query. rewrite tokenize_tokens_from.
    rewrite tokens_from_concat_tokens.
    - unfold parse. rewrite parse_tokens_app.
      rewrite parse_paren_print_tokens, bind_Ok by exact Hterms.
      rewrite parse_tokens_cons, parse_token_term, bind_Ok by exact Ha.
      reflexivity.
    - apply Forall_app. split; [now apply shape_paren |].
      constructor; [exact Hshape_a | constructor].
    - unfold paren. cbn [app]. rewrite <- app_assoc. cbn [app].
      rewrite runs_separated_separator by reflexivity.
      rewrite runs_separated_app_separator by reflexivity.
      now rewrite Hr. }
  unfold evaluate. rewrite H1, H2, !bind_Ok.
  rewrite evaluate_tree_leaf by exact Ha.
  rewrite evaluate_tree_of by exact Hterms. now repeat split.
Qed.

Lemma unconnected_operand_dropped_witness :
  (is_term "a" = true /\ terms_ok (EOr (ETerm "b") (ETerm "c")) = true) /\
  parse_query "a(b|c)" = Ok (leaf "a") /\
  parse_query "(b|c)a" = Ok (BooleanNode "|" (leaf "b") (leaf "c")).
Proof.
  split; [split; reflexivity |].
  destruct (unconnected_operand_dropped "a" (EOr (ETerm "b") (ETerm "c"))
              index_abc eq_refl eq_refl) as [[H1 _] [H2 _]].
  split; [exact H1 | exact H2].
Defined.

(** ** Shape of the trees the parser returns *)

Lemma apply_to_stack_shaped (operator : string) (stack stack' : list node) :
  is_operand operator = false ->
  Forall (fun t => shaped t = true) stack ->
  apply_to_stack operator stack = Ok stack' ->
  Forall (fun t => shaped t = true) stack'.
Proof.
  intros Hop Hstack. unfold apply_to_stack.
  destruct (String.eqb operator "!") eqn:Hnot.
  - destruct stack as [|operand stack]; [discriminate |]. intros [= <-].
    apply Forall_cons in Hstack as [H1 Hstack]. constructor; [| exact Hstack].
    simpl. now rewrite Hop, Hnot, H1.
  - destruct stack as [|rgt [|lft stack]]; try discriminate. intros [= <-].
    apply Forall_cons in Hstack as [H1 Hstack].
    apply Forall_cons in Hstack as [H2 Hstack]. constructor; [| exact Hstack].
    simpl. now rewrite Hop, Hnot, H1, H2.
Qed.

Lemma apply_to_stack_values (tokens : list string) (operator : string)
  (stack stack' : list node) :
  In operator tokens ->
  Forall (fun t => incl (node_values t) tokens) stack ->
  apply_to_stack operator stack = Ok stack' ->
  Forall (fun t => incl (node_values t) tokens) stack'.
Proof.
  intros Hop Hstack. unfold apply_to_stack.
  destruct (String.eqb operator "!").
  - destruct stack as [|operand stack]; [discriminate |]. intros [= <-].
    apply Forall_cons in Hstack as [H1 Hstack]. constructor; [| exact Hstack].
    simpl. rewrite app_nil_r. intros v [<-|Hv]; [exact Hop | now apply H1].
  - destruct stack as [|rgt [|lft stack]]; try discriminate. intros [= <-].
    apply Forall_cons in Hstack as [H1 Hstack].
    apply Forall_cons in Hstack as [H2 Hstack]. constructor; [| exact Hstack].
    simpl. intros v [<-|Hv]; [exact Hop |].
    apply in_app_or in Hv as [Hv|Hv]; [now apply H2 | now apply H1].
Qed.

Lemma close_loop_invariant (tokens : list string) (operators : list string) :
  forall stack st',
    parser_invariant tokens (stack, operators) ->
    close_loop operators stack = Ok st' ->
    parser_invariant tokens st'.
Proof.
  induction operators as [|top operators IH]; intros stack st' Hinv; simpl.
  - now intros [= <-].
  - destruct (String.eqb top "("); [now intros [= <-] |].
    destruct Hinv as (Hs & Hv & Ho). simpl in *.
    apply Forall_cons in Ho as [[Htop Hin] Ho].
    destruct (apply_to_stack top stack) as [stack'|e] eqn:Happly;
      [| discriminate].
    simpl. apply IH. repeat split; simpl; try assumption.
    + now apply (apply_to_stack_shaped top stack).
    + now apply (apply_to_stack_values tokens top stack).
Qed.

Lemma reduce_loop_invariant (tokens : list string) (token : string)
  (operators : list string) :
  forall stack st',
    parser_invariant tokens (stack, operators) ->
    reduce_loop token operators stack = Ok st' ->
    parser_invariant tokens st'.
Proof.
  induction operators as [|top operators IH]; intros stack st' Hinv; simpl.
  - now intros [= <-].
  - destruct (String.eqb top "("); [now intros [= <-] |].
    destruct (precedence_of top) as [ptop|]; [| discriminate]. simpl.
    destruct (precedence_of token) as [ptoken|]; [| discriminate]. simpl.
    destruct (ptoken <=? ptop)%nat; [| now intros [= <-]].
    destruct Hinv as (Hs & Hv & Ho). simpl in *.
    apply Forall_cons in Ho as [[Htop Hin] Ho].
    destruct (apply_to_stack top stack) as [stack'|e] eqn:Happly;
      [| discriminate].
    simpl. apply IH. repeat split; simpl; try assumption.
    + now apply (apply_to_stack_shaped top stack).
    + now apply (apply_to_stack_values tokens top stack).
Qed.

Lemma drain_loop_invariant (tokens : list string) (operators : list string) :
  forall stack stack',
    parser_invariant tokens (stack, operators) ->
    drain_loop operators stack = Ok stack' ->
    Forall (fun t => shaped t = true) stack' /\
    Forall (fun t => incl (node_values t) tokens) stack'.
Proof.
  induction operators as [|top operators IH]; intros stack stack' Hinv; simpl.
  - intros [= <-]. destruct Hinv as (Hs & Hv & _). now split.
  - destruct Hinv as (Hs & Hv & Ho). simpl in *.
    apply Forall_cons in Ho as [[Htop Hin] Ho].
    destruct (apply_to_stack top stack) as [stack1|e] eqn:Happly;
      [| discriminate].
    simpl. apply IH. repeat split; simpl; try assumption.
    + now apply (apply_to_stack_shaped top stack).
    + now apply (apply_to_stack_values tokens top stack).
Qed.

Lemma parse_token_invariant (tokens : list string) (token : string)
  (st st' : list node * list string) :
  In token tokens ->
  parser_invariant tokens st ->
  parse_token token st = Ok st' ->
  parser_invariant tokens st'.
Proof.
  intros Hin Hinv. destruct st as [stack operators]. unfold parse_token.
  destruct (is_operand token) eqn:Hoperand.
  { intros [= <-]. destruct Hinv as (Hs & Hv & Ho). repeat split; simpl in *.
    - constructor; [| exact Hs]. simpl. now rewrite Hoperand.
    - constructor; [| exact Hv]. simpl. intros v [<-|[]]. exact Hin.
    - exact Ho. }
  destruct (String.eqb token "(").
  { intros [= <-]. destruct Hinv as (Hs & Hv & Ho). repeat split; simpl in *;
      try assumption. now constructor. }
  destruct (String.eqb token ")").
  - destruct (close_loop operators stack) as [[stack1 operators1]|e] eqn:Hloop;
      [| discriminate].
    apply (close_loop_invariant tokens) in Hloop; [| exact Hinv]. simpl.
    destruct operators1 as [|top operators1]; [discriminate |].
    intros [= <-]. destruct Hloop as (Hs & Hv & Ho). simpl in *.
    apply Forall_cons in Ho as [_ Ho]. now repeat split.
  - destruct (reduce_loop token operators stack) as [[stack1 operators1]|e]
      eqn:Hloop; [| discriminate].
    apply (reduce_loop_invariant tokens) in Hloop; [| exact Hinv]. simpl.
    intros [= <-]. destruct Hloop as (Hs & Hv & Ho). simpl in *.
    repeat split; try assumption. now constructor.
Qed.

Lemma parse_tokens_invariant (tokens : list string) (todo : list string) :
  forall st st',
    incl todo tokens ->
    parser_invariant tokens st ->
    parse_tokens todo st = Ok st' ->
    parser_invariant tokens st'.
Proof.
  induction todo as [|token todo IH]; intros st st' Hincl Hinv; simpl.
  - now intros [= <-].
  - destruct (parse_token token st) as [st1|e] eqn:Htoken; [| discriminate].
    simpl. apply IH.
    + intros t Ht. apply Hincl. now right.
    + apply (parse_token_invariant tokens token st); try assumption.
      apply Hincl. now left.
Qed.

(** X4: every tree the parser returns is shaped, and its node values are
    tokens of the input.  The root is a node, not [None]; a node whose value
    is an operand has no children; a node [!] has a left child and no right
    child; every other node has two children. *)
Theorem parse_result_shaped (tokens : list string) (root : node) :
  parse tokens = Ok root ->
  shaped root = true /\ incl (node_values root) tokens.
Proof.
  unfold parse.
  destruct (parse_tokens tokens ([], [])) as [[stack operators]|e] eqn:Hparse;
    [| discriminate].
  apply (parse_tokens_invariant tokens) in Hparse;
    [| apply incl_refl | repeat split; constructor].
  simpl.
  destruct (drain_loop operators stack) as [stack'|e] eqn:Hdrain;
    [| discriminate].
  apply (drain_loop_invariant tokens) in Hdrain as [Hs Hv]; [| exact Hparse].
  simpl. unfold stack_bottom.
  destruct (last stack') as [root'|] eqn:Hlast; [| discriminate].
  intros [= <-].
  assert (Hin : root' ∈ stack').
  { now apply last_Some_elem_of. }
  rewrite Forall_forall in Hs, Hv. split; [now apply Hs | now apply Hv].
Qed.

Lemma parse_result_shaped_witness :
  parse (tokenize "a(b") = Ok (BooleanNode "(" (leaf "a") (leaf "b")) /\
  shaped (BooleanNode "(" (leaf "a") (leaf "b")) = true /\
  incl (node_values (BooleanNode "(" (leaf "a") (leaf "b"))) (tokenize "a(b").
Proof.
  assert (H : parse (tokenize "a(b") = Ok (BooleanNode "(" (leaf "a") (leaf "b")))
    by (vm_compute; reflexivity).
  split; [exact H |].
  apply (parse_result_shaped (tokenize "a(b")). exact H.
Defined.

(** ** Outcomes of the evaluator *)

Lemma evaluate_tree_set_well_tagged (t : node) (index : Index) :
  forall s, evaluate_tree t index = Ok (PySet s) -> well_tagged t = true.
Proof.
  induction t as [|v l IHl r IHr]; intros s; simpl; [reflexivity |].
  destruct (is_operand v); [reflexivity |].
  destruct (String.eqb v "!").
  { destruct (evaluate_tree l index) as [[sx|]|e]; simpl; try discriminate.
    intros _. now apply (IHl sx). }
  destruct (String.eqb v " ").
  { destruct (evaluate_tree l index) as [[sx|]|e]; simpl; try discriminate;
      destruct (evaluate_tree r index) as [[sy|]|e']; simpl; try discriminate.
    intros _. now rewrite (IHl sx), (IHr sy). }
  destruct (String.eqb v "|").
  { destruct (evaluate_tree l index) as [[sx|]|e]; simpl; try discriminate;
      destruct (evaluate_tree r index) as [[sy|]|e']; simpl; try discriminate.
    intros _. now rewrite (IHl sx), (IHr sy). }
  discriminate.
Qed.

Lemma evaluate_tree_exn (t : node) (index : Index) :
  forall e, evaluate_tree t index = Raise e -> e = TypeError.
Proof.
  induction t as [|v l IHl r IHr]; intros e; simpl; [discriminate |].
  destruct (is_operand v); [discriminate |].
  destruct (String.eqb v "!").
  { destruct (evaluate_tree l index) as [[sx|]|e1]; simpl; try discriminate.
    - now intros [= <-].
    - intros [= <-]. now apply IHl. }
  destruct (String.eqb v " ").
  { destruct (evaluate_tree l index) as [[sx|]|e1]; simpl;
      [| | intros [= <-]; now apply IHl];
      (destruct (evaluate_tree r index) as [[sy|]|e2]; simpl;
       [| | intros [= <-]; now apply IHr]); try discriminate;
      now intros [= <-]. }
  destruct (String.eqb v "|").
  { destruct (evaluate_tree l index) as [[sx|]|e1]; simpl;
      [| | intros [= <-]; now apply IHl];
      (destruct (evaluate_tree r index) as [[sy|]|e2]; simpl;
       [| | intros [= <-]; now apply IHr]); try discriminate;
      now intros [= <-]. }
  discriminate.
Qed.

Lemma evaluate_tree_none (t : node) (index : Index) :
  evaluate_tree t index = Ok PyNone <-> unknown_root t = true.
Proof.
  destruct t as [|v l r]; simpl; [split; discriminate |].
  destruct (is_operand v); simpl; [split; discriminate |].
  destruct (String.eqb v "!"); simpl.
  { split; [| discriminate].
    destruct (evaluate_tree l index) as [[sx|]|e]; discriminate. }
  destruct (String.eqb v " "); simpl.
  { split; [| discriminate].
    destruct (evaluate_tree l index) as [[sx|]|e]; simpl; try discriminate;
      destruct (evaluate_tree r index) as [[sy|]|e']; discriminate. }
  destruct (String.eqb v "|"); simpl.
  { split; [| discriminate].
    destruct (evaluate_tree l index) as [[sx|]|e]; simpl; try discriminate;
      destruct (evaluate_tree r index) as [[sy|]|e']; discriminate. }
  now split.
Qed.

(** X5: the three outcomes of [evaluate_tree], the same on every index.  It
    returns a set exactly when the tree is well tagged; it returns [None]
    exactly when the value of the root is neither an operand nor one of
    [!], space, [|]; in every other case, an unknown value below the root,
    it raises [TypeError], and it raises nothing else. *)
Theorem evaluate_tree_outcomes (t : node) (index : Index) :
  ((exists s, evaluate_tree t index = Ok (PySet s)) <-> well_tagged t = true) /\
  (evaluate_tree t index = Ok PyNone <-> unknown_root t = true) /\
  (evaluate_tree t index = Raise TypeError <->
   well_tagged t = false /\ unknown_root t = false).
Proof.
  split; [| split].
  - split; [intros [s Hs]; now apply (evaluate_tree_set_well_tagged t index s)
           | apply evaluate_tree_well_tagged].
  - apply evaluate_tree_none.
  - split.
    + intros Hraise. split.
      * destruct (well_tagged t) eqn:Hwt; [| reflexivity].
        destruct (evaluate_tree_well_tagged t index Hwt) as [s Hs]. congruence.
      * destruct (unknown_root t) eqn:Hroot; [| reflexivity].
        apply evaluate_tree_none with (index := index) in Hroot. congruence.
    + intros [Hwt Hroot].
      destruct (evaluate_tree t index) as [[s|]|e] eqn:Heval.
      * apply evaluate_tree_set_well_tagged in Heval. congruence.
      * apply evaluate_tree_none in Heval. congruence.
      * now rewrite (evaluate_tree_exn t index e Heval).
Qed.

Lemma evaluate_tree_outcomes_witness :
  evaluate_tree (BooleanNode " " (leaf "a") (BooleanNode "(" (leaf "b") (leaf "c")))
    index_abc = Raise TypeError.
Proof.
  apply (evaluate_tree_outcomes
           (BooleanNode " " (leaf "a") (BooleanNode "(" (leaf "b") (leaf "c")))
           index_abc).
  split; reflexivity.
Defined.

(** ** A closing parenthesis without an opening one *)

Lemma reduce_loop_open_count (token : string) (operators : list string) :
  forall stack stack' operators',
    reduce_loop token operators stack = Ok (stack', operators') ->
    open_count operators' = open_count operators.
Proof.
  induction operators as [|top operators IH]; intros stack stack' operators';
    simpl.
  - now intros [= _ <-].
  - destruct (String.eqb top "(") eqn:Htop; [now intros [= _ <-]; simpl; rewrite Htop |].
    destruct (precedence_of top) as [ptop|]; [| discriminate]. simpl.
    destruct (precedence_of token) as [ptoken|]; [| discriminate]. simpl.
    destruct (ptoken <=? ptop)%nat;
      [| intros [= _ <-]; simpl; now rewrite Htop].
    destruct (apply_to_stack top stack) as [stack1|e]; [| discriminate].
    simpl. intros H. now apply IH in H.
Qed.

Lemma close_loop_open_count (operators : list string) :
  forall stack stack' operators',
    close_loop operators stack = Ok (stack', operators') ->
    open_count operators' = open_count operators /\
    (operators' = [] \/ exists rest, operators' = "(" :: rest).
Proof.
  induction operators as [|top operators IH]; intros stack stack' operators';
    simpl.
  - intros [= _ <-]. split; [reflexivity | now left].
  - destruct (String.eqb_spec top "(") as [->|Htop].
    + intros [= _ <-]. split; [reflexivity | right; now exists operators].
    + destruct (apply_to_stack top stack) as [stack1|e]; [| discriminate].
      simpl. intros H. now apply IH in H.
Qed.

Lemma unmatched_close_raises (tokens : list string) :
  forall (st : list node * list string) (depth : nat),
    open_count st.2 = depth ->
    tokens_depth tokens depth = None ->
    exists e, parse_tokens tokens st = Raise e.
Proof.
  induction tokens as [|token tokens IH];
    intros [stack operators] depth Hcount Hdepth; [discriminate |].
  cbn [snd] in Hcount. cbn [tokens_depth] in Hdepth.
  rewrite parse_tokens_cons.
  destruct (String.eqb_spec token "(") as [->|Hopen].
  { rewrite parse_token_open, bind_Ok.
    apply (IH _ (S depth)); [| exact Hdepth].
    cbn [snd open_count String.eqb Ascii.eqb Bool.eqb]. now rewrite Hcount. }
  destruct (String.eqb_spec token ")") as [->|Hclose].
  { rewrite parse_token_close.
    destruct (close_loop operators stack) as [[stack1 operators1]|e] eqn:Hloop;
      [| now exists e].
    apply close_loop_open_count in Hloop as [Hc Hshape].
    rewrite bind_Ok. destruct Hshape as [->|[rest ->]].
    - rewrite bind_Raise. now exists IndexError.
    - rewrite bind_Ok. destruct depth as [|depth].
      + cbn [open_count String.eqb Ascii.eqb Bool.eqb] in Hc. lia.
      + apply (IH _ depth); [| exact Hdepth].
        cbn [snd open_count String.eqb Ascii.eqb Bool.eqb] in *. lia. }
  unfold parse_token.
  destruct (is_operand token).
  { rewrite bind_Ok. now apply (IH _ depth). }
  destruct (String.eqb_spec token "(") as [?|_]; [contradiction |].
  destruct (String.eqb_spec token ")") as [?|_]; [contradiction |].
  destruct (reduce_loop token operators stack) as [[stack1 operators1]|e]
    eqn:Hloop; [| now exists e].
  apply reduce_loop_open_count in Hloop. rewrite !bind_Ok.
  apply (IH _ depth); [| exact Hdepth]. cbn [snd open_count].
  destruct (String.eqb_spec token "(") as [?|_]; [contradiction |].
  lia.
Qed.

Lemma no_separator_not_paren (token : string) :
  all_chars (fun c => negb (is_separator c)) token = true ->
  String.eqb token "(" = false /\ String.eqb token ")" = false.
Proof.
  intros H. split.
  - destruct (String.eqb_spec token "(") as [->|]; [discriminate | reflexivity].
  - destruct (String.eqb_spec token ")") as [->|]; [discriminate | reflexivity].
Qed.

Lemma tokens_depth_pending (token : string) (tokens : list string) (depth : nat) :
  all_chars (fun c => negb (is_separator c)) token = true ->
  tokens_depth (pending token ++ tokens) depth = tokens_depth tokens depth.
Proof.
  intros H. unfold pending. destruct (truthy token); [| reflexivity].
  destruct (no_separator_not_paren token H) as [H1 H2].
  cbn [app tokens_depth]. now rewrite H1, H2.
Qed.

Lemma tokens_from_depth (query : string) :
  forall (token : string) (depth : nat),
    all_chars (fun c => negb (is_separator c)) token = true ->
    tokens_depth (tokens_from query token) depth = parens_depth query depth.
Proof.
  induction query as [|c query IH]; intros token depth Htoken.
  - rewrite tokens_from_nil, <- (app_nil_r (pending token)).
    now rewrite tokens_depth_pending.
  - destruct (is_separator c) eqn:Hc.
    + rewrite tokens_from_separator by exact Hc.
      rewrite tokens_depth_pending by exact Htoken.
      cbn [tokens_depth parens_depth String.eqb].
      destruct (Ascii.eqb c "("); [now apply IH |].
      destruct (Ascii.eqb c ")"); [destruct depth | ]; try reflexivity;
        now apply IH.
    + rewrite tokens_from_char by exact Hc. cbn [parens_depth].
      assert (Hopen : Ascii.eqb c "(" = false).
      { destruct (Ascii.eqb_spec c "(") as [->|]; [discriminate | reflexivity]. }
      assert (Hclose : Ascii.eqb c ")" = false).
      { destruct (Ascii.eqb_spec c ")") as [->|]; [discriminate | reflexivity]. }
      rewrite Hopen, Hclose. apply IH.
      rewrite all_chars_app, Htoken. simpl. now rewrite Hc.
Qed.

(** X6: a closing parenthesis that no opening parenthesis precedes is never
    accepted.  When, reading the query from the left, some [)] closes more
    than was opened, [parse_query] raises, with [IndexError] or
    [KeyError], whatever else the query holds. *)
Theorem unmatched_close_rejected (query : string) :
  parens_depth query 0 = None ->
  exists e, parse_query query = Raise e /\ (e = IndexError \/ e = KeyError).
Proof.
  intros Hdepth.
  assert (Hraise : exists e, parse_query query = Raise e).
  { unfold parse_query, parse.
    destruct (unmatched_close_raises (tokenize query) ([], []) 0 eq_refl)
      as [e He].
    - rewrite tokenize_tokens_from. now rewrite tokens_from_depth.
    - exists e. now rewrite He. }
  destruct Hraise as [e He]. exists e. split; [exact He |].
  now apply (parse_exn (tokenize query)).
Qed.

Lemma unmatched_close_rejected_witness :
  parens_depth "(a b))|(c" 0 = None /\
  exists e, parse_query "(a b))|(c" = Raise e /\
            (e = IndexError \/ e = KeyError).
Proof.
  split; [reflexivity |].
  apply (unmatched_close_rejected "(a b))|(c"). reflexivity.
Defined.

(** * The index *)

Example split_on_examples :
  split_on tab (String "a" (String tab (String "b" (String tab (String tab "c")))))
    = ["a"; "b"; ""; "c"] /\
  split_on tab "" = [""] /\
  split_on "," "a,,b" = ["a"; ""; "b"] /\
  split_words "  a  b " = ["a"; "b"] /\
  split_words "" = [] /\
  split_words (String "x" (String "160" "y")) = ["x"; "y"].
Proof. repeat split. Qed.

Lemma elem_of_Index_get (index : Index) (key : string) (d : DocId) :
  d ∈ Index_get index key ∅ <->
  exists postings, index !! key = Some postings /\ d ∈ postings.
Proof.
  unfold Index_get. destruct (index !! key) as [postings|].
  - split; [intros H; now exists postings | now intros (p & [= <-] & H)].
  - split; [intros H; now apply not_elem_of_empty in H
           | now intros (p & [=] & _)].
Qed.

Lemma Index_get_add_posting (doc : DocId) (index : Index) (word key : string) :
  Index_get (add_posting doc index word) key ∅ =
  if decide (word = key) then {[doc]} ∪ Index_get index key ∅
  else Index_get index key ∅.
Proof.
  unfold add_posting, Index_get at 1. rewrite lookup_insert.
  destruct (decide (word = key)) as [->|Hne]; reflexivity.
Qed.

Lemma foldl_add_posting (doc : DocId) (words : list string) :
  forall (index : Index) (key : string) (d : DocId),
    d ∈ Index_get (foldl (add_posting doc) index words) key ∅ <->
    d ∈ Index_get index key ∅ \/ (d = doc /\ key ∈ words).
Proof.
  induction words as [|word words IH]; intros index key d; simpl.
  - split; [now left | intros [H|[_ H]]; [exact H | now apply elem_of_nil in H]].
  - rewrite IH, Index_get_add_posting.
    destruct (decide (word = key)) as [->|Hne].
    + rewrite elem_of_union, elem_of_singleton, elem_of_cons. tauto.
    + rewrite elem_of_cons. split; [tauto |].
      intros [H|[Hd [Hk|Hk]]]; [tauto | congruence | tauto].
Qed.

Lemma index_lines_postings (lines : list string) :
  forall (index index' : Index),
    index_lines lines index = Ok index' ->
    forall (key : string) (d : DocId),
      d ∈ Index_get index' key ∅ <->
      d ∈ Index_get index key ∅ \/
      exists line words,
        line ∈ lines /\ line_words line = Ok (d, words) /\ key ∈ words.
Proof.
  induction lines as [|line lines IH]; intros index index'; simpl.
  - intros [= <-] key d. split; [now left |].
    intros [H|(l & w & H & _)]; [exact H | now apply elem_of_nil in H].
  - unfold index_line.
    destruct (line_words line) as [[doc words]|e] eqn:Hline; [| discriminate].
    simpl. intros Hrest key d. rewrite (IH _ _ Hrest), foldl_add_posting.
    split.
    + intros [[H|[-> H]]|(l & w & Hl & Hw & Hk)].
      * now left.
      * right. exists line, words. split; [now left | now split].
      * right. exists l, w. split; [now right | now split].
    + intros [H|(l & w & Hl & Hw & Hk)]; [now left; left |].
      apply elem_of_cons in Hl as [->|Hl].
      * rewrite Hline in Hw. injection Hw as <- <-. left. right. now split.
      * right. now exists l, w.
Qed.

(** X7: what the index holds.  When the index is built from the lines of
    the corpus, a document id is in the posting set of a word exactly when
    some line has that id in its first field and the word among the
    whitespace-separated words of its third and second fields. *)
Theorem Index_init_postings (lines : list string) (index : Index)
  (key : string) (d : DocId) :
  Index_init lines = Ok index ->
  (d ∈ Index_get index key ∅ <->
   exists line words,
     line ∈ lines /\ line_words line = Ok (d, words) /\ key ∈ words).
Proof.
  intros Hinit. rewrite (index_lines_postings lines ∅ index Hinit).
  split; [| now right]. intros [H|H]; [| exact H].
  unfold Index_get in H. rewrite lookup_empty in H.
  now apply not_elem_of_empty in H.
Qed.

Example Index_init_pets : Index_init corpus_pets = Ok index_pets.
Proof. vm_compute. reflexivity. Qed.

Lemma Index_init_postings_witness :
  Index_init corpus_pets = Ok index_pets /\
  ("3" ∈ Index_get index_pets "dog" ∅ <->
   exists line words,
     line ∈ corpus_pets /\ line_words line = Ok ("3", words) /\ "dog" ∈ words).
Proof.
  assert (H : Index_init corpus_pets = Ok index_pets)
    by (vm_compute; reflexivity).
  split; [exact H |].
  apply (Index_init_postings corpus_pets index_pets "dog" "3"). exact H.
Defined.

(** ** Lines the index cannot be built from *)

Lemma line_words_fields (line : string) :
  three_fields line = true ->
  exists doc words, line_words line = Ok (doc, words).
Proof.
  unfold three_fields. intros H. apply Nat.leb_le in H.
  unfold line_words, list_item.
  destruct (split_on tab line) as [|f0 [|f1 [|f2 fields]]]; simpl in H;
    try lia.
  simpl. eauto.
Qed.

Lemma line_words_short (line : string) :
  three_fields line = false ->
  line_words line = Raise IndexError.
Proof.
  unfold three_fields. intros H. apply Nat.leb_gt in H.
  unfold line_words, list_item.
  destruct (split_on tab line) as [|f0 [|f1 [|f2 fields]]];
    simpl in H; try lia; reflexivity.
Qed.

Lemma index_lines_fields (lines : list string) :
  forall index,
    if forallb three_fields lines
    then exists index', index_lines lines index = Ok index'
    else index_lines lines index = Raise IndexError.
Proof.
  induction lines as [|line lines IH]; intros index;
    cbn [forallb index_lines]; [eauto |].
  unfold index_line.
  destruct (three_fields line) eqn:Hline; cbn [andb].
  - destruct (line_words_fields line Hline) as (doc & words & ->).
    rewrite !bind_Ok. apply IH.
  - now rewrite (line_words_short line Hline).
Qed.

(** X8: the index is built exactly from corpora whose lines all have three
    tab-separated fields.  A line with fewer fields, such as an empty line,
    makes [Index(index_file)] raise [IndexError], and nothing else makes it
    fail. *)
Theorem Index_init_fields (lines : list string) :
  (forallb three_fields lines = true ->
   exists index, Index_init lines = Ok index) /\
  (forallb three_fields lines = false ->
   Index_init lines = Raise IndexError).
Proof.
  pose proof (index_lines_fields lines ∅) as H. unfold Index_init.
  destruct (forallb _ lines); split; intros Hb; try discriminate; exact H.
Qed.

Lemma Index_init_fields_witness :
  Index_init (corpus_pets ++ [newline]) = Raise IndexError.
Proof.
  apply (Index_init_fields (corpus_pets ++ [newline])). reflexivity.
Defined.

(** ** What the built index keeps *)

Lemma split_words_loop_words (s : string) :
  forall word,
    all_chars (fun c => negb (isspace_char c)) word = true ->
    Forall (fun w => is_word w = true) (split_words_loop s word).
Proof.
  assert (Hpending : forall word,
            all_chars (fun c => negb (isspace_char c)) word = true ->
            Forall (fun w => is_word w = true) (pending word)).
  { intros word Hword. unfold pending.
    destruct (truthy word) eqn:Ht; constructor; [| constructor].
    unfold is_word. now rewrite Ht, Hword. }
  induction s as [|c s IH]; intros word Hword; simpl.
  - now apply Hpending.
  - destruct (isspace_char c) eqn:Hc.
    + apply Forall_app. split; [now apply Hpending | now apply IH].
    + apply IH. rewrite all_chars_app, Hword. simpl. now rewrite Hc.
Qed.

Lemma line_words_words (line : string) (doc : DocId) (words : list string) :
  line_words line = Ok (doc, words) ->
  Forall (fun w => is_word w = true) words.
Proof.
  unfold line_words.
  destruct (list_item (split_on tab line) 0) as [f0|]; [| discriminate].
  destruct (list_item (split_on tab line) 2) as [f2|]; [| discriminate].
  destruct (list_item (split_on tab line) 1) as [f1|]; [| discriminate].
  simpl. intros [= _ <-]. apply Forall_app.
  split; now apply split_words_loop_words.
Qed.

Lemma add_posting_invariant (doc : DocId) (index : Index) (word : string) :
  is_word word = true -> index_invariant index ->
  index_invariant (add_posting doc index word).
Proof.
  intros Hword Hinv key postings. unfold add_posting. rewrite lookup_insert.
  destruct (decide (word = key)) as [<-|Hne].
  - intros [= <-]. split; [exact Hword |].
    intros Hempty. apply (not_elem_of_empty (C := gset DocId) doc).
    rewrite <- Hempty. apply elem_of_union_l. now apply elem_of_singleton.
  - apply Hinv.
Qed.

Lemma foldl_add_posting_invariant (doc : DocId) (words : list string) :
  forall index,
    Forall (fun w => is_word w = true) words -> index_invariant index ->
    index_invariant (foldl (add_posting doc) index words).
Proof.
  induction words as [|word words IH]; intros index Hwords Hinv; [exact Hinv |].
  apply Forall_cons in Hwords as [Hword Hwords]. simpl.
  apply IH; [exact Hwords |]. now apply add_posting_invariant.
Qed.

Lemma index_lines_invariant (lines : list string) :
  forall index index',
    index_invariant index -> index_lines lines index = Ok index' ->
    index_invariant index'.
Proof.
  induction lines as [|line lines IH]; intros index index' Hinv; simpl.
  - now intros [= <-].
  - unfold index_line.
    destruct (line_words line) as [[doc words]|e] eqn:Hline; [| discriminate].
    simpl. apply IH. apply foldl_add_posting_invariant; [| exact Hinv].
    now apply (line_words_words line doc).
Qed.

(** X9: in an index built from a corpus, every key is a non-empty string
    without whitespace and every posting set holds at least one document
    id: no term is mapped to the empty set. *)
Theorem Index_init_invariant (lines : list string) (index : Index)
  (key : string) (postings : gset DocId) :
  Index_init lines = Ok index -> index !! key = Some postings ->
  is_word key = true /\ postings <> ∅.
Proof.
  intros Hinit. apply (index_lines_invariant lines ∅ index); [| exact Hinit].
  intros k p. now rewrite lookup_empty.
Qed.

Lemma Index_init_invariant_witness :
  (Index_init corpus_pets = Ok index_pets /\
   index_pets !! "cat" = Some {["1"; "3"]}) /\
  is_word "cat" = true /\ ({["1"; "3"]} : gset DocId) <> ∅.
Proof.
  assert (H1 : Index_init corpus_pets = Ok index_pets)
    by (vm_compute; reflexivity).
  assert (H2 : index_pets !! "cat" = Some {["1"; "3"]})
    by (vm_compute; reflexivity).
  split; [now split |].
  apply (Index_init_invariant corpus_pets index_pets "cat" {["1"; "3"]} H1 H2).
Defined.

(** X10: a document without words is invisible.  On an index built from a
    corpus, every document id in a set returned by the evaluator, for any
    tree, negations included, is the id of a line that has at least one
    word. *)
Theorem evaluate_tree_only_indexed_documents (lines : list string)
  (index : Index) (t : node) (s : gset DocId) (d : DocId) :
  Index_init lines = Ok index ->
  evaluate_tree t index = Ok (PySet s) -> d ∈ s ->
  exists line words,
    line ∈ lines /\ line_words line = Ok (d, words) /\ words <> [].
Proof.
  intros Hinit Heval Hd.
  apply (evaluate_tree_in_all_docs t index s Heval) in Hd.
  apply elem_of_all_docs in Hd as (key & postings & Hkey & Hd).
  assert (Hget : d ∈ Index_get index key ∅).
  { apply elem_of_Index_get. now exists postings. }
  apply (index_lines_postings lines ∅ index Hinit) in Hget
    as [Hget|(line & words & Hline & Hwords & Hin)].
  - unfold Index_get in Hget. rewrite lookup_empty in Hget.
    now apply not_elem_of_empty in Hget.
  - exists line, words. repeat split; try assumption.
    intros ->. now apply elem_of_nil in Hin.
Qed.

Lemma evaluate_tree_only_indexed_documents_witness :
  exists line words,
    line ∈ corpus_pets ++ [corpus_line "5" "" ""] /\
    line_words line = Ok ("2", words) /\ words <> [].
Proof.
  apply (evaluate_tree_only_indexed_documents
           (corpus_pets ++ [corpus_line "5" "" ""]) index_pets
           (BooleanNode "!" (leaf "cat") NoneNode) {["2"; "4"]} "2").
  - vm_compute. reflexivity.
  - vm_compute. reflexivity.
  - vm_compute. reflexivity.
Defined.

(** * Search results and the submission file *)

Example strip_examples :
  strip (String "031" ("a b" +:+ String "133" " ")) = "a b" /\
  strip (" " +:+ newline) = "" /\
  split_on "," (strip (" " +:+ newline)) = [""] /\
  startswith "ObjectId,QueryId" "ObjectId" = true /\
  startswith "" "ObjectId" = false /\
  result_key 7 "d1" = "7, d1" /\ result_key 0 "" = "0, ".
Proof. repeat split. Qed.

(** ** Keys of the result set *)

Lemma pretty_N_go_no_comma (x : N) :
  forall s, no_comma s = true -> no_comma (pretty_N_go x s) = true.
Proof.
  induction (N.lt_wf_0 x) as [x _ IH]; intros s Hs.
  assert (x = 0 \/ 0 < x)%N as [->|Hx] by lia.
  - now rewrite pretty_N_go_0.
  - rewrite pretty_N_go_step by exact Hx. apply IH.
    + now apply N.div_lt.
    + unfold no_comma in *. cbn [all_chars]. rewrite Hs.
      unfold pretty_N_char. now repeat case_match.
Qed.

Lemma pretty_nat_no_comma (n : nat) : no_comma (pretty n) = true.
Proof.
  unfold pretty, pretty_nat, pretty, pretty_N.
  case_decide; [reflexivity |]. now apply pretty_N_go_no_comma.
Qed.

Lemma key_inj (q1 : string) :
  forall q2 d1 d2,
    no_comma q1 = true -> no_comma q2 = true ->
    q1 +:+ ", " +:+ d1 = q2 +:+ ", " +:+ d2 -> q1 = q2 /\ d1 = d2.
Proof.
  unfold no_comma.
  induction q1 as [|c1 q1 IH]; intros [|c2 q2] d1 d2 H1 H2;
    rewrite ?string_app_cons, ?string_app_nil_l; intros Heq.
  - injection Heq as ->. now split.
  - injection Heq as <- _. discriminate.
  - injection Heq as -> _. discriminate.
  - injection Heq as <- Heq. simpl in H1, H2.
    apply andb_prop in H1 as [_ H1]. apply andb_prop in H2 as [_ H2].
    destruct (IH q2 d1 d2 H1 H2 Heq) as [-> ->]. now split.
Qed.

Lemma elem_of_result_keys (q : nat) (docs : gset DocId) (query_id d : string) :
  no_comma query_id = true ->
  query_id +:+ ", " +:+ d ∈ (set_map (result_key q) docs : gset string) <->
  pretty q = query_id /\ d ∈ docs.
Proof.
  intros Hq. rewrite elem_of_map. unfold result_key. split.
  - intros (d' & Heq & Hd').
    apply key_inj in Heq as [-> ->];
      [now split | exact Hq | apply pretty_nat_no_comma].
  - intros [<- Hd]. now exists d.
Qed.

Lemma add_all_keys (founds : list (nat * pyval)) :
  forall (results results' : gset string) (query_id d : string),
    no_comma query_id = true ->
    add_all founds results = Ok results' ->
    (query_id +:+ ", " +:+ d ∈ results' <->
     query_id +:+ ", " +:+ d ∈ results \/
     exists q docs,
       (q, PySet docs) ∈ founds /\ pretty q = query_id /\ d ∈ docs).
Proof.
  induction founds as [|[q [docs|]] founds IH];
    intros results results' query_id d Hq; simpl.
  - intros [= <-]. split; [now left |].
    intros [H|(q & docs & H & _)]; [exact H | now apply elem_of_nil in H].
  - intros Hrest. rewrite (IH _ _ query_id d Hq Hrest).
    rewrite elem_of_union, elem_of_result_keys by exact Hq. split.
    + intros [[H|[H1 H2]]|(q' & docs' & Hin & H1 & H2)].
      * now left.
      * right. exists q, docs. split; [now left | now split].
      * right. exists q', docs'. split; [now right | now split].
    + intros [H|(q' & docs' & Hin & H1 & H2)]; [now left; left |].
      apply elem_of_cons in Hin as [[= -> ->]|Hin].
      * left. right. now split.
      * right. now exists q', docs'.
  - discriminate.
Qed.

Lemma split_loop_no_separator (sep : ascii) (s : string) :
  forall field,
    all_chars (fun c => negb (Ascii.eqb c sep)) field = true ->
    Forall (fun f => all_chars (fun c => negb (Ascii.eqb c sep)) f = true)
           (split_loop sep s field).
Proof.
  induction s as [|c s IH]; intros field Hfield; simpl.
  - now repeat constructor.
  - destruct (Ascii.eqb c sep) eqn:Hc.
    + constructor; [exact Hfield | now apply IH].
    + apply IH. rewrite all_chars_app, Hfield. simpl. now rewrite Hc.
Qed.

(** X11: the relevance label of the submission file.  After the results
    [(query id, documents)] of the queries have been added, a line
    [ObjectId,QueryId,DocumentId] of the objects file is written with label
    1 exactly when some added result has a query id whose decimal form is
    the text [QueryId] and holds the document [DocumentId]; otherwise it is
    written with label 0. *)
Theorem submission_label (founds : list (nat * pyval))
  (results : gset string) (line object_id query_id document_id : string) :
  add_all founds ∅ = Ok results ->
  startswith line "ObjectId" = false ->
  split_on "," (strip line) = [object_id; query_id; document_id] ->
  ((exists q docs, (q, PySet docs) ∈ founds /\ pretty q = query_id /\
                   document_id ∈ docs) ->
   submission_line results line = Written (object_id +:+ ",1" +:+ newline)) /\
  (~ (exists q docs, (q, PySet docs) ∈ founds /\ pretty q = query_id /\
                     document_id ∈ docs) ->
   submission_line results line = Written (object_id +:+ ",0" +:+ newline)).
Proof.
  intros Hadd Hstart Hsplit.
  assert (Hq : no_comma query_id = true).
  { pose proof (split_loop_no_separator "," (strip line) "" eq_refl) as H.
    fold (split_on "," (strip line)) in H. rewrite Hsplit in H.
    apply Forall_cons in H as [_ H]. now apply Forall_cons in H as [H _]. }
  pose proof (add_all_keys founds ∅ results query_id document_id Hq Hadd)
    as Hkeys.
  unfold submission_line. rewrite Hstart, Hsplit.
  split; intros H; case_decide as Hin; try reflexivity.
  - exfalso. apply Hin, Hkeys. now right.
  - exfalso. apply Hkeys in Hin as [Hin|Hin]; [| now apply H].
    now apply not_elem_of_empty in Hin.
Qed.

Lemma submission_label_witness :
  submission_line (set_map (result_key 7) ({["1"; "3"]} : gset DocId))
    ("10,7,3" +:+ newline) = Written ("10,1" +:+ newline) /\
  submission_line (set_map (result_key 7) ({["1"; "3"]} : gset DocId))
    ("11,07,3" +:+ newline) = Written ("11,0" +:+ newline).
Proof.
  assert (Hadd : add_all [(7, PySet {["1"; "3"]})] ∅ =
                 Ok (set_map (result_key 7) ({["1"; "3"]} : gset DocId))).
  { cbn [add_all SearchResults_add]. rewrite bind_Ok.
    now rewrite (union_empty_l_L (C := gset string)). }
  split.
  - apply (submission_label [(7, PySet {["1"; "3"]})] _ ("10,7,3" +:+ newline)
             "10" "7" "3" Hadd eq_refl eq_refl).
    exists 7, {["1"; "3"]}.
    split; [now left | split; [reflexivity | vm_compute; reflexivity]].
  - apply (submission_label [(7, PySet {["1"; "3"]})] _ ("11,07,3" +:+ newline)
             "11" "07" "3" Hadd eq_refl eq_refl).
    intros (q & docs & Hin & Hq & _).
    apply list_elem_of_singleton in Hin. injection Hin as -> _. discriminate.
Defined.

(** ** Writing the submission file *)

Lemma submission_line_ok (results : gset string) (line : string) :
  if object_line_ok line
  then exists text, submission_line results line = Written text
  else submission_line results line = ValueError.
Proof.
  unfold object_line_ok, submission_line.
  destruct (startswith line "ObjectId"); cbn [orb]; [eauto |].
  destruct (split_on "," (strip line)) as [|f0 [|f1 [|f2 [|f3 fields]]]];
    cbn [length Nat.eqb]; try reflexivity.
  case_decide; eauto.
Qed.

(** X12: the submission file has one written line for each line of the
    objects file, provided every line either starts with [ObjectId] or has,
    once stripped, exactly three comma-separated fields; any other line,
    such as an empty one, makes [print_submission] raise [ValueError]. *)
Theorem print_submission_lines (results : gset string) (lines : list string) :
  (forallb object_line_ok lines = true ->
   exists texts, print_submission results lines = Written texts /\
                 length texts = length lines) /\
  (forallb object_line_ok lines = false ->
   print_submission results lines = ValueError).
Proof.
  induction lines as [|line lines [IHok IHbad]]; cbn [forallb print_submission].
  - split; [intros _; now exists [] | discriminate].
  - pose proof (submission_line_ok results line) as Hline.
    destruct (object_line_ok line); cbn [andb].
    + destruct Hline as [text ->]. split.
      * intros Hrest. destruct (IHok Hrest) as (texts & -> & Hlen).
        exists (text :: texts). split; [reflexivity | simpl; now rewrite Hlen].
      * intros Hrest. now rewrite (IHbad Hrest).
    + rewrite Hline. split; [discriminate | reflexivity].
Qed.

Lemma print_submission_lines_witness :
  print_submission ∅
    ["ObjectId,QueryId,DocumentId" +:+ newline; "10,7,3" +:+ newline; newline]
  = ValueError.
Proof.
  apply (print_submission_lines ∅
    ["ObjectId,QueryId,DocumentId" +:+ newline; "10,7,3" +:+ newline; newline]).
  reflexivity.
Defined.

(** ** One query, from text to results *)

(** X13: the outcomes of processing one query.  When the query parses and
    its tree evaluates to a set, the keys of that set are added to the
    results; when the parser raises, that exception ends the run; and the
    run ends with [TypeError] exactly when the query parses to a tree that
    is not well tagged, the error coming from the evaluator or, when the
    evaluator returns [None], from iterating over [None] in [add]. *)
Theorem run_query_outcomes (index : Index) (results : gset string) (q : nat)
  (query : string) :
  (forall t s, parse_query query = Ok t ->
     evaluate_tree t index = Ok (PySet s) ->
     run_query index results q query =
       Ok (results ∪ set_map (result_key q) s)) /\
  (forall e, parse_query query = Raise e ->
     run_query index results q query = Raise e) /\
  (run_query index results q query = Raise TypeError <->
   exists t, parse_query query = Ok t /\ well_tagged t = false).
Proof.
  unfold run_query, QueryTree_init, search. split; [| split].
  - intros t s -> Heval. rewrite !bind_Ok. cbn [tree qid].
    now rewrite Heval.
  - intros e ->. reflexivity.
  - destruct (parse_query query) as [t|e] eqn:Hparse.
    + rewrite !bind_Ok. cbn [tree qid].
      destruct (evaluate_tree t index) as [[s|]|e] eqn:Heval.
      * apply evaluate_tree_set_well_tagged in Heval.
        split; [discriminate |]. intros (t' & [= <-] & Hwt). congruence.
      * split; [| reflexivity]. intros _. exists t. split; [reflexivity |].
        destruct (well_tagged t) eqn:Hwt; [| reflexivity].
        destruct (evaluate_tree_well_tagged t index Hwt) as [s Hs]. congruence.
      * rewrite (evaluate_tree_exn t index e Heval) in *.
        split; [| reflexivity]. intros _. exists t. split; [reflexivity |].
        destruct (well_tagged t) eqn:Hwt; [| reflexivity].
        destruct (evaluate_tree_well_tagged t index Hwt) as [s Hs]. congruence.
    + rewrite bind_Raise. split.
      * intros [= ->]. apply (parse_exn (tokenize query)) in Hparse.
        destruct Hparse; discriminate.
      * intros (t & [=] & _).
Qed.

Lemma run_query_outcomes_witness :
  run_query index_pets ∅ 7 "cat(dog" = Raise TypeError.
Proof.
  apply (run_query_outcomes index_pets ∅ 7 "cat(dog").
  exists (BooleanNode "(" (leaf "cat") (leaf "dog")).
  split; vm_compute; reflexivity.
Defined.

(** ** The ampersand *)

Lemma isalnum_char_plain (c : ascii) :
  isalnum_char c = true ->
  is_separator c = false /\ Ascii.eqb c "_" = false /\ Ascii.eqb c "&" = false.
Proof.
  destruct c as [[] [] [] [] [] [] [] []]; vm_compute; intros H;
    try discriminate; repeat split.
Qed.

Lemma all_alnum_plain (s : string) :
  all_chars isalnum_char s = true ->
  all_chars (fun c => negb (is_separator c)) s = true /\
  char_in "_" s = false.
Proof.
  induction s as [|c s IH]; cbn [all_chars char_in]; [now split |].
  intros H. apply andb_prop in H as [Hc Hs].
  destruct (isalnum_char_plain c Hc) as (H1 & H2 & _).
  destruct (IH Hs) as [IH1 IH2]. rewrite H1, IH1. split; [reflexivity |].
  rewrite Ascii.eqb_sym, H2. exact IH2.
Qed.

Lemma isalnum_all (s : string) :
  isalnum s = true -> all_chars isalnum_char s = true.
Proof. destruct s; [discriminate | trivial]. Qed.

Lemma char_in_app (c : ascii) (s1 s2 : string) :
  char_in c (s1 +:+ s2) = char_in c s1 || char_in c s2.
Proof.
  induction s1 as [|d s1 IH]; [reflexivity |].
  rewrite string_app_cons. simpl. now rewrite IH, orb_assoc.
Qed.

(** X14: the ampersand is not an operator.  For alphanumeric [a] and [b] the
    tokenizer keeps [a&b] in one token, the parser takes that token for an
    operator without operands, and [parse_query] raises [IndexError]. *)
Theorem ampersand_not_supported (a b : string) :
  isalnum a = true -> isalnum b = true ->
  tokenize (a +:+ "&" +:+ b) = [a +:+ "&" +:+ b] /\
  parse_query (a +:+ "&" +:+ b) = Raise IndexError.
Proof.
  intros Ha Hb.
  destruct (all_alnum_plain a (isalnum_all a Ha)) as [Ha1 Ha2].
  destruct (all_alnum_plain b (isalnum_all b Hb)) as [Hb1 Hb2].
  assert (Htokens : tokenize (a +:+ "&" +:+ b) = [a +:+ "&" +:+ b]).
  { rewrite tokenize_tokens_from.
    rewrite <- (string_app_nil_r (a +:+ "&" +:+ b)) at 1.
    rewrite tokens_from_run, tokens_from_nil, string_app_nil_l.
    - unfold pending. now destruct a.
    - rewrite !all_chars_app, Ha1, Hb1. reflexivity. }
  split; [exact Htokens |].
  assert (Hop : is_operand (a +:+ "&" +:+ b) = false).
  { unfold is_operand. rewrite !char_in_app, Ha2, Hb2.
    cbn [char_in Ascii.eqb Bool.eqb orb]. rewrite orb_false_r.
    destruct a as [|c a]; [discriminate |]. rewrite string_app_cons.
    cbn [isalnum]. rewrite <- string_app_cons, !all_chars_app.
    cbn [all_chars]. replace (isalnum_char "&") with false by reflexivity.
    now rewrite andb_false_r. }
  unfold parse_query. rewrite Htokens. unfold parse.
  rewrite parse_tokens_cons. unfold parse_token. rewrite Hop.
  destruct (String.eqb_spec (a +:+ "&" +:+ b) "(") as [Heq|_].
  { apply (f_equal (char_in "&")) in Heq. rewrite !char_in_app in Heq.
    cbn in Heq. rewrite orb_true_r in Heq. discriminate. }
  destruct (String.eqb_spec (a +:+ "&" +:+ b) ")") as [Heq|_].
  { apply (f_equal (char_in "&")) in Heq. rewrite !char_in_app in Heq.
    cbn in Heq. rewrite orb_true_r in Heq. discriminate. }
  cbn [reduce_loop]. rewrite !bind_Ok. cbn [parse_tokens]. rewrite bind_Ok.
  cbn [drain_loop]. unfold apply_to_stack.
  now destruct (String.eqb (a +:+ "&" +:+ b) "!").
Qed.

Lemma ampersand_not_supported_witness :
  (isalnum "cat" = true /\ isalnum "dog" = true) /\
  tokenize "cat&dog" = ["cat&dog"] /\
  parse_query "cat&dog" = Raise IndexError.
Proof.
  split; [split; reflexivity |].
  apply (ampersand_not_supported "cat" "dog"); reflexivity.
Defined.

(** ** Negation written after its operand *)

Lemma parse_postfix_not (a : string) :
  is_term a = true ->
  parse_query (a +:+ "!") = Ok (BooleanNode "!" (leaf a) NoneNode).
Proof. intros Ha. run_parser. Qed.

(** X15: the position of [!] is not checked.  For every term [a] the query
    [a!], with the negation after its operand, parses to the same tree as
    [!a] and evaluates, on every index, to the complement of the postings
    of [a]. *)
Theorem postfix_negation_accepted (a : string) (index : Index) :
  is_term a = true ->
  parse_query (a +:+ "!") = parse_query ("!" +:+ a) /\
  evaluate (a +:+ "!") index =
    Ok (PySet (all_docs index ∖ Index_get index a ∅)).
Proof.
  intros Ha.
  assert (Hprefix : parse_query ("!" +:+ a) =
                    Ok (BooleanNode "!" (leaf a) NoneNode)) by run_parser.
  rewrite Hprefix. split; [now apply parse_postfix_not |].
  unfold evaluate. rewrite parse_postfix_not by exact Ha. rewrite bind_Ok.
  now run_evaluator.
Qed.

Lemma postfix_negation_accepted_witness :
  is_term "cat" = true /\
  evaluate "cat!" index_pets =
    Ok (PySet (all_docs index_pets ∖ Index_get index_pets "cat" ∅)).
Proof.
  split; [reflexivity |].
  apply (postfix_negation_accepted "cat" index_pets). reflexivity.
Defined.

(** * From the corpus to the result of a query *)

Lemma doc_has_word_postings (lines : list string) (index : Index)
  (d : DocId) (w : string) :
  Index_init lines = Ok index ->
  (d ∈ Index_get index w ∅ <-> doc_has_word lines d w).
Proof.
  intros Hinit. rewrite (index_lines_postings lines ∅ index Hinit).
  unfold doc_has_word. split; [| now right]. intros [H|H]; [| exact H].
  unfold Index_get in H. rewrite lookup_empty in H.
  now apply not_elem_of_empty in H.
Qed.

Lemma doc_known_all_docs (lines : list string) (index : Index) (d : DocId) :
  Index_init lines = Ok index ->
  (d ∈ all_docs index <-> doc_known lines d).
Proof.
  intros Hinit. rewrite elem_of_all_docs. unfold doc_known. split.
  - intros (key & postings & Hkey & Hd). exists key.
    apply (doc_has_word_postings lines index d key Hinit).
    apply elem_of_Index_get. now exists postings.
  - intros (w & Hw).
    apply (doc_has_word_postings lines index d w Hinit) in Hw.
    apply elem_of_Index_get in Hw as (postings & Hkey & Hd).
    now exists w, postings.
Qed.

Lemma denote_satisfies (lines : list string) (index : Index) (e : expr)
  (d : DocId) :
  Index_init lines = Ok index ->
  (d ∈ denote index e <-> satisfies lines d e).
Proof.
  intros Hinit. induction e as [a|e1 IH1|e1 IH1 e2 IH2|e1 IH1 e2 IH2]; simpl.
  - now apply doc_has_word_postings.
  - rewrite elem_of_difference, IH1.
    now rewrite (doc_known_all_docs lines index d Hinit).
  - now rewrite elem_of_intersection, IH1, IH2.
  - now rewrite elem_of_union, IH1, IH2.
Qed.

(** X16: retrieval is correct from the corpus to the result.  On the index
    built from a corpus, the query text of a boolean expression over terms
    evaluates to a set, and a document id is in that set exactly when the
    document satisfies the expression: a term holds when the word occurs in
    a line of that id, and a negation holds for the ids of lines with at
    least one word that do not satisfy the negated expression. *)
Theorem retrieval_correct (lines : list string) (index : Index) (e : expr) :
  Index_init lines = Ok index -> terms_ok e = true ->
  exists s, evaluate (print e) index = Ok (PySet s) /\
            forall d, d ∈ s <-> satisfies lines d e.
Proof.
  intros Hinit Hterms. exists (denote index e). split.
  - unfold evaluate, parse_query. rewrite tokenize_print by exact Hterms.
    rewrite parse_print_tokens by exact Hterms. rewrite bind_Ok.
    now apply evaluate_tree_of.
  - intros d. now apply denote_satisfies.
Qed.

Lemma retrieval_correct_witness :
  (Index_init corpus_pets = Ok index_pets /\
   terms_ok (EAnd (ETerm "cat") (ENot (ETerm "dog"))) = true) /\
  exists s, evaluate "cat !dog" index_pets = Ok (PySet s) /\
            forall d, d ∈ s <->
                      satisfies corpus_pets d
                        (EAnd (ETerm "cat") (ENot (ETerm "dog"))).
Proof.
  assert (H : Index_init corpus_pets = Ok index_pets)
    by (vm_compute; reflexivity).
  split; [split; [exact H | reflexivity] |].
  apply (retrieval_correct corpus_pets index_pets
           (EAnd (ETerm "cat") (ENot (ETerm "dog"))) H).
  reflexivity.
Defined.

